(* ===== verification/_CoqProject ===== *)
-Q . S2P
Prelude.v
Grid.v
Neighbours.v
Erosion.v
Render.v
Float.v
Rng.v
Generator.v
Config.v
