(* ===== verification/Prelude.v ===== *)
(** * Linear caves indexer: a verification development of [src/src/main.rs]

    The program ([src/src/main.rs], 173 lines of Rust) generates a cave map
    on a fixed square grid. [main] reads two settings from the console (a
    wall probability and an erosion iteration count, with silent defaults),
    then [generator] fills a grid with random walls and applies a
    cellular-automaton erosion rule the given number of times, printing the
    grid with [print_grid] after every stage. [generator] calls
    [neighbours] for every tile of every iteration, and [rng.random_bool]
    of the [rand] crate for every tile of the initialisation.

    ** Parts of the program and the files that model them

    - [Prelude] (this file): the machine integers the code computes with
      ([i32], [u8], [usize] and the [as] casts between them, with Rust's
      debug-build overflow panic as [None]), the loop combinator
      [fold_opt] for a [for] loop whose body may panic, the notation scope
      [cave_scope], the hint databases [cave] and [cave_len] and the
      tactics [decide_cases] and [cave_arith] the component files share.
    - [Grid]: the constants of the code ([GRID_SIZE],
      [GRID_NEIGHBROURS_TO_LIVE], [GRID_NEIGHBROURS_TO_BORN],
      [DEFAULT_EROSION_ITERATIONS]), the type [Grid =
      [[bool; GRID_SIZE]; GRID_SIZE]] as a list of rows with the
      well-formedness invariant [grid_wf], checked indexing [cell]
      ([grid[r][c]], [None] where Rust panics), checked assignment
      [set_cell], and the loop nest [fill_grid] / [fill_row] that writes
      every cell of a grid ([for y ... { for x ... }], main.rs 68-79).
    - [Neighbours]: [neighbours] (main.rs 91-126) as written, with its
      [as i32] casts, checked [i32] additions, bounds test, array indexing
      and [u8] counter; the specification's Moore-neighbourhood count
      [count_wall_neighbors] (spec 4.1).
    - [Erosion]: one iteration of the erosion loop of [generator]
      (main.rs 66-80): [erode_tile], the three-way rule with its
      short-circuit evaluation, and [erosion_step], the loop nest writing a
      fresh [grid_updated] from the unmodified [grid]; the specification's
      synchronous step [spec_step] (spec 4.3).
    - [Render]: [UiTileState], [UI_TILES_STATES] and [print_grid]
      (main.rs 19-42) as the UTF-8 bytes written to standard output, and a
      decoder [parse_grid].
    - [Float]: [f64::from_str] of the standard library ([dec2flt]), which
      [main] calls on the probability line: its grammar (sign, digits,
      point, saturating exponent; [inf], [infinity], [nan] in any case) and
      correct rounding to the nearest [f64], ties to even ([round_f64]),
      with subnormals and overflow to infinity. [F64] holds a finite value
      as the rational it denotes, or an infinity, or NaN.
    - [Rng]: [Rng::random_bool] of the [rand] crate (0.9), which is not code
      of this repository: [Bernoulli::new] (range check and threshold) and
      [sample] (one [u64] word, compared with the threshold); the generator
      is an abstract stream of [u64] words.
    - [Generator]: [generator] (main.rs 44-89) in [Io], a state-and-panic
      monad over a [World] holding the random generator and the log of
      what was printed ([Output]: a [println!] line or a [print_grid]
      call); the initialisation loops [init_grid] / [init_line], the
      iteration loop [erosion_loop]; and the specification's run (spec 4.4)
      as a step relation [run_step] on [run_state] whose transitions are
      the specification's [spec_step].
    - [Config]: [main] (main.rs 130-174) over a list of input lines:
      [read_line], [config_probability] and [config_iterations] (the
      [trim().parse()] matches with their silent fallbacks), the prompts,
      the call to [generator] and the closing prompt; and, from the
      standard library, [str::trim] ([trim], [is_whitespace]) and
      [u32::from_str] ([parse_u32], [parse_digits]). [expected_stdout] is
      the whole standard output written out directly, the reference the
      run is compared with.

    The components meet at two interfaces: [generator] draws through
    [random_bool] on an [F64] probability, so what [Float] parses is what
    [Rng.bernoulli_new] checks; and [generator] logs [PrintGrid] events
    that [Config.stdout_bytes] renders with [Render.print_grid].

    ** What the theorems show (claim numbers C1-C27)

    - [Neighbours] (C1, C11, C12): [neighbours] never panics on a tile of
      a well-formed grid and returns the wall count of the Moore
      neighbourhood of the transposed cell; out-of-grid positions count
      nothing, so the count is at most 5 on an edge and 3 in a corner,
      and the last row and column are read without panic.
    - [Erosion] (C2-C5, C13, C14, C16, C17): an iteration never panics,
      keeps the dimensions and reads only the prior grid; its per-tile
      rule; it equals [spec_step] on grids symmetric about the diagonal and
      differs from it in general (the transposed count, a concrete grid at
      [GRID_SIZE]); the all-open fixed point, the all-wall grid,
      monotonicity and preservation of symmetry.
    - [Render] (C15, C19): the printed bytes parse back to the grid, and
      there are [n * (6 n + 1)] of them.
    - [Generator] (C6-C10, C18): for a probability in [[0, 1]] the run
      never panics, prints [k + 1] grids in order and returns the [k]-th
      iterate of the first; the first grid takes word [y * n + x] for tile
      [(y, x)], and is all walls without any draw at [p = 1]; a
      probability outside [[0, 1]], NaN or infinite panics; and the grid
      returned is the state the specification's run reaches with
      [spec_step] from a symmetric first grid (refinement).
    - [Config] (C20-C27): the iteration count read from a padded numeral,
      or silently 6 for a blank, overflowing or negative one; the
      probability read from a decimal numeral is its nearest [f64]
      (relative error [2^-53]), and a decimal at most 1 never panics;
      [main]'s standard output equals [expected_stdout] (an equivalence
      with a direct rendering); on an empty input it uses the defaults;
      and it panics exactly when the probability is outside [[0, 1]],
      NaN or infinite.
    - [Float] (lemmas, used by C25-C27): [qlog2] is [floor (log2 r)];
      rounding to nearest has error at most half a unit in the last place
      and keeps [[0, 1]]; [round_f64] respects [Qeq] (a [Proper]
      instance), so it is a function of the rational.

    ** Bounds, fuel and termination

    No definition needs fuel: every loop of the program is a [for] over a
    finite range or slice, modelled by structural recursion ([fold_opt]
    over [seq], [init_line] over the row, [erosion_loop] over the
    remaining iteration count), so every definition is total and computes.
    The code is monomorphic in [GRID_SIZE = 50]; the model takes the size
    as a parameter [n], and the theorems about [neighbours] hold for every
    [n < 2^31], the bound under which the [as i32] casts of coordinates
    below [n] are exact and the [+1] offsets cannot overflow; it covers 50
    and the 3x3 grids of the specification's tests. Grid coordinates are
    [nat] (Rust [usize] loop indices); the arithmetic inside [neighbours]
    is on [Z] kept at [i32] width. The probability is an [F64]: a finite
    [f64] is the rational it denotes, so rounding is computed exactly on
    [Q] (with [2^-1074] and [2^1024] as the subnormal quantum and the
    overflow threshold).

    ** Not modelled

    The sign of a zero [f64] is dropped ([-0.0] is [Finite 0]): nothing in
    the program tells the two apart. [ParseFloatError] is not split into
    its kinds, which [main] discards. The I/O errors of [read_line] (the [.expect] panics) and input that is not UTF-8 are
    not modelled: an input line is its list of Unicode scalar values.
    Reads are not events of the output log, so the model does not record
    that each prompt is printed before its read. The random generator is
    an arbitrary stream of words: the theorems hold for every stream and
    say nothing about the distribution.
*)

From stdpp Require Export base list numbers sets.
From Stdlib Require Export ZArith Lia.

Declare Scope cave_scope.
Delimit Scope cave_scope with cave.

(** ** Machine integers *)

Local Open Scope Z_scope.

Definition i32_min : Z := - 2 ^ 31.
Definition i32_max : Z := 2 ^ 31 - 1.
Definition u8_max : Z := 2 ^ 8 - 1.

(** [e as i32] for an unsigned [e]: keep the low 32 bits and read them in
    two's complement. *)
Definition as_i32 (z : Z) : Z :=
  let m := z mod 2 ^ 32 in
  if m <? 2 ^ 31 then m else m - 2 ^ 32.

(** [e as usize] for an [i32] [e] on a 64-bit target: sign extension, that is
    reduction modulo [2^64]. *)
Definition as_usize (z : Z) : Z := z mod 2 ^ 64.

(** [a + b] on [i32]: a debug build panics on overflow. *)
Definition i32_add (a b : Z) : option Z :=
  let r := a + b in
  if (i32_min <=? r) && (r <=? i32_max) then Some r else None.

(** [a += b] on [u8]: a debug build panics on overflow. *)
Definition u8_add (a b : Z) : option Z :=
  let r := a + b in
  if r <=? u8_max then Some r else None.

Infix "+i32" := i32_add (at level 50, left associativity) : cave_scope.
Infix "+u8" := u8_add (at level 50, left associativity) : cave_scope.

Local Close Scope Z_scope.

(** ** Loops whose body may panic *)

(** [for x in xs { body }] where [body] threads an accumulator and may
    panic ([None]); the first panic aborts the loop. *)
Fixpoint fold_opt {A B : Type} (body : A -> B -> option A) (acc : A)
    (xs : list B) : option A :=
  match xs with
  | [] => Some acc
  | x :: xs' => acc' ← body acc x; fold_opt body acc' xs'
  end.

(** ** Generic lemmas *)

Create HintDb cave discriminated.
Create Rewrite HintDb cave_len.

Section machine_ints.
Open Scope Z_scope.

Lemma as_i32_small z : 0 <= z < 2 ^ 31 -> as_i32 z = z.
Proof.
  intros Hz. unfold as_i32. rewrite Z.mod_small by lia.
  destruct (Z.ltb_spec z (2 ^ 31)); lia.
Qed.

Lemma as_i32_range z : i32_min <= as_i32 z <= i32_max.
Proof.
  unfold as_i32, i32_min, i32_max.
  pose proof (Z.mod_pos_bound z (2 ^ 32) ltac:(lia)).
  destruct (Z.ltb_spec (z mod 2 ^ 32) (2 ^ 31)); lia.
Qed.

Lemma as_usize_small z : 0 <= z < 2 ^ 64 -> as_usize z = z.
Proof. intros. unfold as_usize. by apply Z.mod_small. Qed.

Lemma i32_add_ok a b :
  i32_min <= a + b <= i32_max -> i32_add a b = Some (a + b).
Proof.
  intros Hr. unfold i32_add.
  destruct (Z.leb_spec i32_min (a + b)), (Z.leb_spec (a + b) i32_max);
    simpl; done || lia.
Qed.

Lemma i32_add_overflow a b : i32_max < a + b -> i32_add a b = None.
Proof.
  intros Hr. unfold i32_add.
  destruct (Z.leb_spec (a + b) i32_max); [lia|].
  by rewrite andb_false_r.
Qed.

Lemma u8_add_ok a b : a + b <= u8_max -> u8_add a b = Some (a + b).
Proof.
  intros Hr. unfold u8_add. destruct (Z.leb_spec (a + b) u8_max); done || lia.
Qed.
End machine_ints.

Lemma fold_opt_app {A B} (body : A -> B -> option A) acc xs ys :
  fold_opt body acc (xs ++ ys) = acc' ← fold_opt body acc xs; fold_opt body acc' ys.
Proof.
  revert acc. induction xs as [|x xs IH]; intros acc; simpl; [done|].
  destruct (body acc x); simpl; [apply IH|done].
Qed.

(** A loop whose body never panics on the elements it visits computes the
    pure fold of the total body. *)
Lemma fold_opt_total {A B} (body : A -> B -> option A) (f : A -> B -> A)
    (P : B -> Prop) acc xs :
  Forall P xs -> (forall a x, P x -> body a x = Some (f a x)) ->
  fold_opt body acc xs = Some (fold_left f xs acc).
Proof.
  intros Hxs Hb. revert acc.
  induction Hxs as [|x xs Hx _ IH]; intros acc; simpl; [done|].
  rewrite (Hb _ _ Hx). apply IH.
Qed.

#[export] Hint Rewrite @length_imap @length_insert @length_replicate @length_seq
  @length_fmap : cave_len.

Lemma lookup_replicate_lt {A} n (x : A) i : i < n -> replicate n x !! i = Some x.
Proof. intros. by apply lookup_replicate. Qed.

Lemma replicate_fmap_seq {A} n (x : A) : replicate n x = (λ _, x) <$> seq 0 n.
Proof.
  apply list_eq. intros i. rewrite list_lookup_fmap.
  destruct (decide (i < n)).
  - rewrite lookup_replicate_lt by done.
    destruct (lookup_lt_is_Some_2 (seq 0 n) i) as [j ->]; [by rewrite length_seq|done].
  - rewrite !lookup_ge_None_2; autorewrite with cave_len; done || lia.
Qed.

(** A loop that adds one to a counter on the elements satisfying [P] and
    never panics while the counter stays below [bound] counts them. *)
Lemma fold_opt_count {B} (body : Z → B → option Z) (P : B → Prop)
    `{∀ x, Decision (P x)} (bound : Z) (acc : Z) (xs : list B) :
  (∀ a x, x ∈ xs → (a + 1 ≤ bound)%Z →
     body a x = Some (if decide (P x) then a + 1 else a)%Z) →
  (acc + Z.of_nat (length xs) ≤ bound)%Z →
  fold_opt body acc xs = Some (acc + Z.of_nat (length (filter P xs)))%Z.
Proof.
  revert acc. induction xs as [|x xs IH]; intros acc Hbody Hb; simpl in *.
  - f_equal. lia.
  - rewrite Hbody by (set_solver || lia). simpl. rewrite filter_cons.
    case_decide; simpl; rewrite IH; (set_solver || lia || f_equal; lia).
Qed.

#[export] Hint Resolve as_i32_small as_usize_small : cave.

(** Resolve every [decide] of the goal, proving each condition or its
    negation with [solver]. *)
Ltac decide_cases solver :=
  repeat first [ rewrite decide_True by (cbn beta; solver)
               | rewrite decide_False by (cbn beta; solver) ].

(** Close the arithmetic side conditions that the machine-integer lemmas
    leave: unfold the width constants and call [lia]. *)
Ltac cave_arith :=
  unfold i32_min, i32_max, u8_max in *; simpl in *; lia.
