(* ===== verification/Grid.v ===== *)
(** * Grid: the constants of main.rs and the grid data model

    [type Grid = [[bool; GRID_SIZE]; GRID_SIZE]] (main.rs 18) is a list of
    rows, [true] for a wall; [grid_wf n] is the invariant that it is an
    [n] by [n] array. Rust array indexing and assignment are bounds
    checked: [cell] and [set_cell] return [None] where the code panics. *)

From S2P Require Import Prelude.

(** ** Constants (main.rs 8-16) *)

Definition GRID_SIZE : nat := 50.
Definition GRID_NEIGHBROURS_TO_LIVE : Z := 5.
Definition GRID_NEIGHBROURS_TO_BORN : Z := 5.
Definition DEFAULT_EROSION_ITERATIONS : nat := 6.

(** ** The grid *)

Abbreviation Grid := (list (list bool)).

Definition grid_wf (n : nat) (g : Grid) : Prop :=
  length g = n ∧ Forall (λ row, length row = n) g.

#[export] Instance grid_wf_dec n g : Decision (grid_wf n g).
Proof. unfold grid_wf. apply _. Defined.

(** [[[b; n]; n]], e.g. [[[false; GRID_SIZE]; GRID_SIZE]] (main.rs 50, 67). *)
Definition grid_fill (n : nat) (b : bool) : Grid := replicate n (replicate n b).

(** [grid[r][c]] *)
Definition cell (g : Grid) (r c : nat) : option bool :=
  row ← g !! r; row !! c.

Notation "g @@ ( r , c )" := (cell g r c)
  (at level 1, format "g  @@  ( r ,  c )") : cave_scope.
Open Scope cave_scope.

(** [grid[r][c] = v] *)
Definition set_cell (g : Grid) (r c : nat) (v : bool) : option Grid :=
  row ← g !! r;
  if decide (c < length row) then Some (<[r := <[c := v]> row]> g) else None.

(** The loop nest of main.rs 68-79: for every row [y] of [src], read
    [let line = src[y]], and for every [x] in [0..line.len()] compute the
    new tile with [tile y x] and store it with [dst[y][x] = ...]. *)
Definition fill_row (tile : nat → nat → option bool) (y : nat) (dst : Grid)
    (xs : list nat) : option Grid :=
  fold_opt (λ dst x, v ← tile y x; set_cell dst y x v) dst xs.

Definition fill_grid (tile : nat → nat → option bool) (src dst : Grid) : option Grid :=
  fold_opt (λ dst y, line ← src !! y; fill_row tile y dst (seq 0 (length line)))
    dst (seq 0 (length src)).

(** ** Notions the specification uses *)

(** The cell at [(r, c)] is a wall, [false] outside the grid. *)
Definition wall (g : Grid) (r c : nat) : bool := default false (g @@ (r, c)).

Definition transpose (n : nat) (g : Grid) : Grid :=
  (λ r, (λ c, wall g c r) <$> seq 0 n) <$> seq 0 n.

Definition symmetric (n : nat) (g : Grid) : Prop := transpose n g = g.

(** Every wall of [g1] is a wall of [g2]. *)
Definition grid_le (g1 g2 : Grid) : Prop :=
  ∀ r c, wall g1 r c = true → wall g2 r c = true.

(** The grid whose cell [(r, c)] is [f r c]. *)
Definition grid_tabulate (n : nat) (f : nat → nat → bool) : Grid :=
  (λ r, f r <$> seq 0 n) <$> seq 0 n.

(** ** Lemmas *)

Lemma cell_tabulate n f r c :
  (grid_tabulate n f) @@ (r, c) = if decide (r < n ∧ c < n) then Some (f r c) else None.
Proof.
  unfold cell, grid_tabulate. rewrite list_lookup_fmap.
  destruct (seq 0 n !! r) as [r'|] eqn:Hr; simpl.
  - apply lookup_seq in Hr as [-> Hr]. rewrite list_lookup_fmap.
    destruct (seq 0 n !! c) as [c'|] eqn:Hc; simpl.
    + apply lookup_seq in Hc as [-> Hc]. rewrite decide_True; done || lia.
    + apply lookup_ge_None in Hc. rewrite length_seq in Hc.
      rewrite decide_False; done || lia.
  - apply lookup_ge_None in Hr. rewrite length_seq in Hr.
    rewrite decide_False; done || lia.
Qed.

Lemma grid_tabulate_wf n f : grid_wf n (grid_tabulate n f).
Proof.
  unfold grid_wf, grid_tabulate. autorewrite with cave_len. split; [done|].
  apply Forall_fmap, Forall_forall. intros r _. simpl. by autorewrite with cave_len.
Qed.

Lemma cell_Some_lt n g r c b :
  grid_wf n g → g @@ (r, c) = Some b → r < n ∧ c < n.
Proof.
  intros [Hlen Hrows] Hc. unfold cell in Hc.
  destruct (g !! r) as [row|] eqn:Hr; [|done]. simpl in Hc.
  pose proof (lookup_lt_Some _ _ _ Hr).
  pose proof (lookup_lt_Some _ _ _ Hc).
  rewrite Forall_lookup in Hrows. specialize (Hrows _ _ Hr). lia.
Qed.

Lemma cell_wf n g r c :
  grid_wf n g → r < n → c < n → ∃ b, g @@ (r, c) = Some b.
Proof.
  intros [Hlen Hrows] Hr Hc. unfold cell.
  destruct (lookup_lt_is_Some_2 g r) as [row Hrow]; [lia|]. rewrite Hrow. simpl.
  rewrite Forall_lookup in Hrows. specialize (Hrows _ _ Hrow).
  apply lookup_lt_is_Some_2. lia.
Qed.

Lemma cell_wall n g r c :
  grid_wf n g → r < n → c < n → g @@ (r, c) = Some (wall g r c).
Proof.
  intros Hwf Hr Hc. destruct (cell_wf n g r c) as [b Hb]; [done..|].
  unfold wall. by rewrite Hb.
Qed.

(** Two [n] by [n] grids with the same walls are equal. *)
Lemma grid_eq n g1 g2 :
  grid_wf n g1 → grid_wf n g2 → (∀ r c, r < n → c < n → wall g1 r c = wall g2 r c) →
  g1 = g2.
Proof.
  intros Hw1 Hw2 Hwall. destruct Hw1 as [L1 R1], Hw2 as [L2 R2].
  apply list_eq. intros r.
  destruct (decide (r < n)) as [Hr|Hr].
  - destruct (lookup_lt_is_Some_2 g1 r) as [row1 H1]; [lia|].
    destruct (lookup_lt_is_Some_2 g2 r) as [row2 H2]; [lia|].
    rewrite H1, H2. f_equal.
    rewrite Forall_lookup in R1, R2.
    specialize (R1 _ _ H1). specialize (R2 _ _ H2).
    apply list_eq. intros c. specialize (Hwall r c Hr). unfold wall, cell in Hwall.
    rewrite H1, H2 in Hwall. simpl in Hwall.
    destruct (decide (c < n)) as [Hc|Hc].
    + destruct (lookup_lt_is_Some_2 row1 c) as [b1 E1]; [lia|].
      destruct (lookup_lt_is_Some_2 row2 c) as [b2 E2]; [lia|].
      rewrite E1, E2 in Hwall |- *. simpl in Hwall. specialize (Hwall Hc). by subst.
    + rewrite !lookup_ge_None_2; done || lia.
  - rewrite !lookup_ge_None_2; done || lia.
Qed.

(** A well-formed grid is the tabulation of its walls. *)
Lemma grid_tabulate_wall n g : grid_wf n g → grid_tabulate n (wall g) = g.
Proof.
  intros Hwf. apply (grid_eq n); [apply grid_tabulate_wf|done|].
  intros r c Hr Hc. unfold wall at 1. rewrite cell_tabulate, decide_True; done || lia.
Qed.

Lemma cell_imap2 (F : nat → nat → bool → bool) g r c :
  (imap (λ y line, imap (λ x t, F y x t) line) g) @@ (r, c) = F r c <$> g @@ (r, c).
Proof.
  unfold cell. rewrite list_lookup_imap. destruct (g !! r) as [line|]; [|done].
  simpl. by rewrite list_lookup_imap.
Qed.

Lemma wall_out n g r c : grid_wf n g → ¬ (r < n ∧ c < n) → wall g r c = false.
Proof.
  intros Hwf Hout. unfold wall. destruct (g @@ (r, c)) as [b|] eqn:Hc; [|done].
  exfalso. apply Hout. by apply (cell_Some_lt n g r c b).
Qed.

Lemma wall_tabulate n f r c :
  r < n → c < n → wall (grid_tabulate n f) r c = f r c.
Proof. intros. unfold wall. rewrite cell_tabulate, decide_True; done || lia. Qed.

Lemma grid_fill_tabulate n b : grid_fill n b = grid_tabulate n (λ _ _, b).
Proof.
  unfold grid_fill, grid_tabulate. by rewrite !replicate_fmap_seq.
Qed.

Lemma transpose_tabulate n g : transpose n g = grid_tabulate n (λ r c, wall g c r).
Proof. done. Qed.

Lemma set_cell_lt n g r c v :
  grid_wf n g → r < n → c < n →
  ∃ g', set_cell g r c v = Some g' ∧ grid_wf n g' ∧
        ∀ r' c', wall g' r' c' = if decide (r' = r ∧ c' = c) then v else wall g r' c'.
Proof.
  intros Hwf Hr Hc. pose proof Hwf as [Hlen Hrows].
  destruct (lookup_lt_is_Some_2 g r) as [row Hrow]; [lia|].
  rewrite Forall_lookup in Hrows. pose proof (Hrows _ _ Hrow) as Hlrow.
  unfold set_cell. rewrite Hrow. simpl. rewrite decide_True by lia.
  eexists; split; [done|]. split.
  - split; [by rewrite length_insert|].
    apply Forall_lookup. intros i row' Hi.
    destruct (decide (i = r)) as [->|Hne].
    + rewrite list_lookup_insert_eq in Hi by lia. injection Hi as <-.
      by rewrite length_insert.
    + rewrite list_lookup_insert_ne in Hi by done. by apply (Hrows i).
  - intros r' c'. unfold wall, cell.
    destruct (decide (r' = r)) as [->|Hne].
    + rewrite list_lookup_insert_eq, Hrow by lia. simpl.
      destruct (decide (c' = c)) as [->|Hne'].
      * rewrite list_lookup_insert_eq by lia. by rewrite decide_True.
      * rewrite list_lookup_insert_ne by done. rewrite decide_False; [done|].
        by intros [_ ?].
    + rewrite list_lookup_insert_ne by done. rewrite decide_False; [done|].
      by intros [? _].
Qed.

Section fill.
Context (n : nat) (tile : nat → nat → option bool) (F : nat → nat → bool).
Hypothesis Htile : ∀ y x, y < n → x < n → tile y x = Some (F y x).

Lemma fill_row_spec y xs dst :
  y < n → grid_wf n dst → Forall (λ x, x < n) xs →
  ∃ dst', fill_row tile y dst xs = Some dst' ∧ grid_wf n dst' ∧
    ∀ r c, wall dst' r c = if decide (r = y ∧ c ∈ xs) then F r c else wall dst r c.
Proof.
  intros Hy. revert dst. induction xs as [|x xs IH]; intros dst Hwf Hxs.
  - exists dst. split_and!; [done|done|]. intros r c.
    rewrite decide_False; [done|]. intros [_ Hc]. by apply not_elem_of_nil in Hc.
  - apply Forall_cons in Hxs as [Hx Hxs]. unfold fill_row. simpl.
    rewrite Htile by done. simpl.
    destruct (set_cell_lt n dst y x (F y x)) as (dst1 & -> & Hwf1 & Hw1); [done..|].
    simpl. destruct (IH dst1) as (dst' & Hrun & Hwf' & Hw'); [done..|].
    exists dst'. split_and!; [done|done|]. intros r c.
    rewrite Hw', Hw1.
    destruct (decide (r = y)), (decide (c ∈ xs)), (decide (c = x)); subst;
      decide_cases ltac:(rewrite ?elem_of_cons; tauto); done.
Qed.

Lemma fill_grid_rows src ys dst :
  grid_wf n src → grid_wf n dst → Forall (λ y, y < n) ys →
  ∃ dst', fold_opt (λ dst y, line ← src !! y; fill_row tile y dst (seq 0 (length line)))
            dst ys = Some dst' ∧ grid_wf n dst' ∧
    ∀ r c, wall dst' r c = if decide (r ∈ ys ∧ c < n) then F r c else wall dst r c.
Proof.
  intros Hsrc. revert dst. induction ys as [|y ys IH]; intros dst Hwf Hys.
  - exists dst. split_and!; [done|done|]. intros r c.
    rewrite decide_False; [done|]. intros [Hr _]. by apply not_elem_of_nil in Hr.
  - apply Forall_cons in Hys as [Hy Hys]. simpl.
    destruct Hsrc as [Hlen Hrows].
    destruct (lookup_lt_is_Some_2 src y) as [line Hline]; [lia|].
    rewrite Hline. simpl. rewrite Forall_lookup in Hrows.
    rewrite (Hrows _ _ Hline).
    destruct (fill_row_spec y (seq 0 n) dst) as (dst1 & -> & Hwf1 & Hw1); [done|done|..].
    { apply Forall_forall. intros x Hx%elem_of_seq. lia. }
    simpl. destruct (IH dst1) as (dst' & Hrun & Hwf' & Hw'); [done..|].
    exists dst'. split_and!; [done|done|]. intros r c.
    rewrite Hw', Hw1.
    destruct (decide (r = y)), (decide (r ∈ ys)), (decide (c < n)); subst;
      decide_cases ltac:(rewrite ?elem_of_cons, ?elem_of_seq; intuition lia); done.
Qed.

(** The loop nest overwrites every cell: it produces the grid whose cell
    [(y, x)] is [F y x], whatever [dst] held. *)
Lemma fill_grid_spec src dst :
  grid_wf n src → grid_wf n dst → fill_grid tile src dst = Some (grid_tabulate n F).
Proof.
  intros Hsrc Hdst. unfold fill_grid.
  pose proof Hsrc as [Hlen _]. rewrite Hlen.
  destruct (fill_grid_rows src (seq 0 n) dst) as (dst' & -> & Hwf' & Hw'); [done|done|..].
  { apply Forall_forall. intros y Hy%elem_of_seq. lia. }
  f_equal. apply (grid_eq n); [done|apply grid_tabulate_wf|].
  intros r c Hr Hc. rewrite Hw', wall_tabulate by done.
  rewrite decide_True; [done|]. rewrite elem_of_seq. lia.
Qed.
End fill.

#[export] Hint Resolve grid_tabulate_wf : cave.
