(* ===== verification/Neighbours.v ===== *)
(** * Neighbours: counting the walls around a tile (main.rs 91-126)

    [neighbours] is the code's function as written: a [for] loop over the
    eight [relatives], each turned into an absolute position with
    [as i32] casts and checked [i32] additions, skipped when outside the
    grid, and otherwise read with [grid[absolute[0]][absolute[1]]] into a
    [u8] counter. [count_wall_neighbors] is the specification's count
    (spec 4.1): the walls among the eight Moore neighbours of [(r, c)]
    that lie inside the [n] by [n] grid. The code indexes the grid by its
    first coordinate, so [neighbours n (x, y) g] is the count around the
    cell in row [x] and column [y] ([neighbours_spec]). *)

From S2P Require Import Prelude Grid.
Local Open Scope cave_scope.

(** ** The code *)

(** [let relatives: [[i32; 2]; 8usize]] (main.rs 95-104). *)
Definition relatives : list (Z * Z) :=
  [(1, 0); (1, 1); (0, 1); (-1, 1); (-1, 0); (-1, -1); (0, -1); (1, -1)]%Z.

(** One turn of [for relative in relatives] (main.rs 107-123). *)
Definition neighbours_body (size : nat) (tile_coord : Z * Z) (grid : Grid)
    (neighbours_count : Z) (relative : Z * Z) : option Z :=
  absolute0 ← as_i32 tile_coord.1 +i32 relative.1;
  absolute1 ← as_i32 tile_coord.2 +i32 relative.2;
  let gs := as_i32 (Z.of_nat size) in
  if (absolute0 <? 0)%Z || (gs <=? absolute0)%Z || (absolute1 <? 0)%Z
     || (gs <=? absolute1)%Z
  then Some neighbours_count
  else
    '(tile : bool) ← grid @@ (Z.to_nat (as_usize absolute0), Z.to_nat (as_usize absolute1));
    if tile then neighbours_count +u8 1 else Some neighbours_count.

(** [fn neighbours(tile_coord: [usize; 2usize], grid: Grid) -> u8]; the
    grid size is the parameter [size] ([GRID_SIZE] in the program). *)
Definition neighbours (size : nat) (tile_coord : Z * Z) (grid : Grid) : option Z :=
  fold_opt (neighbours_body size tile_coord grid) 0%Z relatives.

(** ** The specification's count *)

Definition moore_offsets : list (Z * Z) :=
  filter (λ d, d ≠ (0, 0)%Z) (list_prod [-1; 0; 1] [-1; 0; 1])%Z.

(** The position [(r + dr, c + dc)] lies inside the [n] by [n] grid. *)
Definition in_grid (n : nat) (r c : nat) (d : Z * Z) : Prop :=
  (0 ≤ Z.of_nat r + d.1 < Z.of_nat n)%Z ∧ (0 ≤ Z.of_nat c + d.2 < Z.of_nat n)%Z.

(** ... and holds a wall. *)
Definition wall_neighbour (n : nat) (g : Grid) (r c : nat) (d : Z * Z) : Prop :=
  in_grid n r c d ∧
  wall g (Z.to_nat (Z.of_nat r + d.1)) (Z.to_nat (Z.of_nat c + d.2)) = true.

#[export] Instance in_grid_dec n r c d : Decision (in_grid n r c d).
Proof. unfold in_grid. apply _. Defined.
#[export] Instance wall_neighbour_dec n g r c d : Decision (wall_neighbour n g r c d).
Proof. unfold wall_neighbour. apply _. Defined.

(** [count_wall_neighbors(grid, r, c)] of spec 4.1. *)
Definition count_wall_neighbors (n : nat) (g : Grid) (r c : nat) : nat :=
  length (filter (wall_neighbour n g r c) moore_offsets).

(** The number of rows (or columns) among [r - 1], [r], [r + 1] that lie
    inside an [n] by [n] grid. *)
Definition span (n r : nat) : nat :=
  length (filter (λ d : Z, (0 ≤ Z.of_nat r + d < Z.of_nat n)%Z) [-1; 0; 1]%Z).

(** ** Lemmas *)

Lemma moore_offsets_eq :
  moore_offsets = [(-1, -1); (-1, 0); (-1, 1); (0, -1); (0, 1); (1, -1); (1, 0); (1, 1)]%Z.
Proof. vm_compute. reflexivity. Qed.

Lemma relatives_moore : relatives ≡ₚ moore_offsets.
Proof. rewrite moore_offsets_eq. unfold relatives. solve_Permutation. Qed.

Lemma moore_offsets_unit :
  Forall (λ d : Z * Z, (-1 ≤ d.1 ≤ 1)%Z ∧ (-1 ≤ d.2 ≤ 1)%Z) moore_offsets.
Proof. rewrite moore_offsets_eq. repeat constructor; simpl; lia. Qed.

Lemma relatives_unit d : d ∈ relatives → (-1 ≤ d.1 ≤ 1)%Z ∧ (-1 ≤ d.2 ≤ 1)%Z.
Proof.
  intros Hd. rewrite relatives_moore in Hd.
  exact (proj1 (Forall_forall _ _) moore_offsets_unit d Hd).
Qed.

(** The bounds test of main.rs 110-116 is the negation of [in_grid]. *)
Lemma out_of_grid_test (n : nat) (a b : Z) :
  ((a <? 0)%Z || (Z.of_nat n <=? a)%Z || (b <? 0)%Z || (Z.of_nat n <=? b)%Z) =
  negb (bool_decide ((0 ≤ a < Z.of_nat n)%Z ∧ (0 ≤ b < Z.of_nat n)%Z)).
Proof.
  case_bool_decide as H; simpl.
  - destruct (Z.ltb_spec a 0), (Z.leb_spec (Z.of_nat n) a),
      (Z.ltb_spec b 0), (Z.leb_spec (Z.of_nat n) b); simpl; done || lia.
  - destruct (Z.ltb_spec a 0), (Z.leb_spec (Z.of_nat n) a),
      (Z.ltb_spec b 0), (Z.leb_spec (Z.of_nat n) b); simpl; done || lia.
Qed.

Section body.
Context (n : nat) (g : Grid) (Hwf : grid_wf n g) (Hn : (Z.of_nat n < 2 ^ 31)%Z).

(** One turn of the loop, at a tile of the grid, adds the wall indicator
    of the neighbour it visits. *)
Lemma neighbours_body_ok x y acc (d : Z * Z) :
  x < n → y < n → (-1 ≤ d.1 ≤ 1)%Z → (-1 ≤ d.2 ≤ 1)%Z → (acc + 1 ≤ u8_max)%Z →
  neighbours_body n (Z.of_nat x, Z.of_nat y) g acc d =
    Some (if decide (wall_neighbour n g x y d) then acc + 1 else acc)%Z.
Proof.
  intros Hx Hy Hd1 Hd2 Hacc. destruct d as [d1 d2]. simpl in *.
  unfold neighbours_body. simpl.
  rewrite (as_i32_small (Z.of_nat x)), (as_i32_small (Z.of_nat y)),
    (as_i32_small (Z.of_nat n)) by lia.
  rewrite !i32_add_ok by cave_arith. simpl.
  rewrite out_of_grid_test.
  case_bool_decide as Hin; simpl; case_decide as Hwn;
    unfold wall_neighbour, in_grid in Hwn; simpl in Hwn.
  - rewrite !as_usize_small by lia.
    rewrite (cell_wall n) by (done || lia). simpl.
    destruct Hwn as [_ ->]. apply u8_add_ok. lia.
  - rewrite !as_usize_small by lia.
    rewrite (cell_wall n) by (done || lia). simpl.
    destruct (wall g _ _); [|done]. by destruct Hwn.
  - by destruct Hwn.
  - done.
Qed.

(** [neighbours] computes the specification's count, at the position
    whose row is the first coordinate it is given. *)
Lemma neighbours_count_eq x y :
  x < n → y < n →
  neighbours n (Z.of_nat x, Z.of_nat y) g =
    Some (Z.of_nat (count_wall_neighbors n g x y)).
Proof.
  intros Hx Hy. unfold neighbours, count_wall_neighbors.
  rewrite (fold_opt_count _ (wall_neighbour n g x y) u8_max).
  - by rewrite relatives_moore.
  - intros a d Hd Ha. destruct (relatives_unit d Hd).
    by apply neighbours_body_ok.
  - cave_arith.
Qed.
End body.

Lemma count_wall_neighbors_le_in_grid n g r c :
  count_wall_neighbors n g r c ≤ length (filter (in_grid n r c) moore_offsets).
Proof.
  unfold count_wall_neighbors.
  rewrite <-(list_filter_filter_l (wall_neighbour n g r c) (in_grid n r c))
    by (by intros ? [? _]).
  apply length_filter.
Qed.

Lemma length_filter_fmap {A B} (P : B → Prop) `{∀ x, Decision (P x)} (f : A → B) l :
  length (filter P (f <$> l)) = length (filter (P ∘ f) l).
Proof.
  induction l as [|x l IH]; [done|]. rewrite fmap_cons, !filter_cons.
  repeat case_decide; simpl; rewrite ?IH; unfold compose in *; (done || tauto).
Qed.

Lemma moore_offsets_swap : (λ d : Z * Z, (d.2, d.1)) <$> moore_offsets ≡ₚ moore_offsets.
Proof. rewrite moore_offsets_eq. simpl. solve_Permutation. Qed.

(** Transposing the grid transposes the count. *)
Lemma count_wall_neighbors_transpose n g r c :
  count_wall_neighbors n (transpose n g) r c = count_wall_neighbors n g c r.
Proof.
  unfold count_wall_neighbors. rewrite <-moore_offsets_swap at 2.
  rewrite length_filter_fmap. f_equal. apply list_filter_iff.
  intros [d1 d2]. unfold compose, wall_neighbour, in_grid. simpl.
  rewrite transpose_tabulate. split; intros [[Hr Hc] Hw]; (split; [lia|]);
    rewrite wall_tabulate in * by lia; done.
Qed.

(** The in-grid neighbours of a tile form a [span n r] by [span n c]
    block without its centre. *)


Lemma in_grid_count n r c :
  r < n → c < n →
  length (filter (in_grid n r c) moore_offsets) = span n r * span n c - 1.
Proof.
  intros Hr Hc. rewrite moore_offsets_eq. unfold span, in_grid.
  rewrite !filter_cons, !filter_nil.
  destruct (decide (r = 0)), (decide (r + 1 = n)), (decide (c = 0)), (decide (c + 1 = n));
    decide_cases ltac:(simpl; lia); simpl; lia.
Qed.

Lemma span_bounds n r : r < n → 1 ≤ span n r ≤ 3.
Proof.
  intros Hr. unfold span. rewrite !filter_cons, !filter_nil.
  destruct (decide (r = 0)), (decide (r + 1 = n)); decide_cases lia; simpl; lia.
Qed.

(** At the first or last row (or column) only two of the three lie inside. *)
Lemma span_border n r : r < n → (r = 0 ∨ r = n - 1) → span n r ≤ 2.
Proof.
  intros Hr Hb. unfold span. rewrite !filter_cons, !filter_nil.
  destruct Hb as [-> | ->], (decide (n = 1)); decide_cases lia; simpl; lia.
Qed.

Lemma span_inner n r : 0 < r → r + 1 < n → span n r = 3.
Proof.
  intros H0 H1. unfold span. rewrite !filter_cons, !filter_nil.
  decide_cases lia; done.
Qed.

#[export] Hint Resolve neighbours_count_eq : cave.

(** ** Properties of [neighbours] *)

(** C1. On every tile of a well-formed grid whose size fits in an [i32],
    [neighbours] does not panic (no [i32] overflow, no out-of-range index,
    no [u8] overflow) and returns the number of walls among the Moore
    neighbours inside the grid of the cell in row [x], column [y]; that
    number never exceeds 8. *)
Theorem neighbours_correct n g x y :
  grid_wf n g → (Z.of_nat n < 2 ^ 31)%Z → x < n → y < n →
  neighbours n (Z.of_nat x, Z.of_nat y) g = Some (Z.of_nat (count_wall_neighbors n g x y)) ∧
  count_wall_neighbors n g x y ≤ 8.
Proof.
  intros Hwf Hn Hx Hy. split; [by apply neighbours_count_eq|].
  etrans; [apply count_wall_neighbors_le_in_grid|].
  rewrite in_grid_count by done.
  pose proof (span_bounds n x Hx). pose proof (span_bounds n y Hy). nia.
Qed.

Lemma neighbours_correct_witness :
  neighbours 3 (Z.of_nat 1, Z.of_nat 1) [[true; false; true]; [false; true; false]; [true; true; false]] =
    Some (Z.of_nat (count_wall_neighbors 3 [[true; false; true]; [false; true; false]; [true; true; false]] 1 1)) ∧
  count_wall_neighbors 3 [[true; false; true]; [false; true; false]; [true; true; false]] 1 1 ≤ 8.
Proof.
  apply neighbours_correct; [split; [reflexivity | repeat constructor] | lia | lia | lia].
Defined.

(** C11. Boundary policy: on every tile of the grid [neighbours] returns
    (it does not panic at the border), and positions outside the grid
    contribute nothing, so the count is at most the number of its
    neighbours inside the grid, [span n x * span n y - 1]: 8 inside, 5 on
    an edge, 3 in a corner. *)
Theorem neighbours_le_in_grid n g x y :
  grid_wf n g → (Z.of_nat n < 2 ^ 31)%Z → x < n → y < n →
  ∃ k, neighbours n (Z.of_nat x, Z.of_nat y) g = Some k ∧
       (k ≤ Z.of_nat (span n x * span n y - 1))%Z.
Proof.
  intros Hwf Hn Hx Hy. rewrite neighbours_count_eq by done. eexists. split; [done|].
  apply inj_le. rewrite <-in_grid_count by done. apply count_wall_neighbors_le_in_grid.
Qed.

Lemma neighbours_le_in_grid_witness :
  ∃ k, neighbours GRID_SIZE (Z.of_nat 49, Z.of_nat 0) (grid_fill GRID_SIZE true) = Some k ∧
       (k ≤ Z.of_nat (span GRID_SIZE 49 * span GRID_SIZE 0 - 1))%Z.
Proof.
  apply neighbours_le_in_grid;
    [split; [reflexivity | vm_compute; repeat constructor] | vm_compute; reflexivity
    | vm_compute; lia | vm_compute; lia].
Defined.


