(* ===== verification/Erosion.v ===== *)
(** * Erosion: one erosion iteration of [generator] (main.rs 66-80)

    [erode_tile] is the three-way rule of main.rs 71-77 with Rust's
    short-circuit [&&]: [neighbours] is called only after [grid[y][x]] has
    been read, and the second condition is not evaluated when the first
    holds. [erosion_step] is the body of [for iteration in
    1..=erosion_iteration] up to [grid = grid_updated]: a fresh
    [grid_updated] filled by the loop nest [fill_grid] from the unmodified
    [grid]. [spec_rule] and [spec_step] are the specification's rule and
    synchronous step (spec 4.3), where the new state of the cell in row
    [r], column [c] depends on its own neighbour count. *)

From S2P Require Import Prelude Grid Neighbours.
Local Open Scope cave_scope.

(** ** The code *)

(** The value stored in [grid_updated[y][x]] (main.rs 71-77). *)
Definition erode_tile (size : nat) (grid : Grid) (y x : nat) : option bool :=
  '(t : bool) ← grid @@ (y, x);
  if t then
    nb ← neighbours size (Z.of_nat x, Z.of_nat y) grid;
    (* [grid[y][x] && neighbours(..) < GRID_NEIGHBROURS_TO_LIVE]; when it
       fails, [!grid[y][x]] is false and the [else] branch keeps [t] *)
    if (nb <? GRID_NEIGHBROURS_TO_LIVE)%Z then Some false else Some t
  else
    nb ← neighbours size (Z.of_nat x, Z.of_nat y) grid;
    if (GRID_NEIGHBROURS_TO_BORN <? nb)%Z then Some true else Some t.

(** One erosion iteration (main.rs 67-80). *)
Definition erosion_step (size : nat) (grid : Grid) : option Grid :=
  fill_grid (erode_tile size grid) grid (grid_fill size false).

(** ** The specification *)

(** The transition rule of spec 4.3, in its three-way form. *)
Definition spec_rule (is_wall : bool) (count : nat) : bool :=
  if is_wall && (Z.of_nat count <? GRID_NEIGHBROURS_TO_LIVE)%Z then false
  else if negb is_wall && (GRID_NEIGHBROURS_TO_BORN <? Z.of_nat count)%Z then true
  else is_wall.

(** The synchronous step of spec 4.3: every cell from its own count in the
    prior grid. *)
Definition spec_step (n : nat) (g : Grid) : Grid :=
  grid_tabulate n (λ r c, spec_rule (wall g r c) (count_wall_neighbors n g r c)).

(** Is [(r, c)] one of the four corners of the [n] by [n] grid? *)
Definition is_corner (n r c : nat) : bool :=
  ((r =? 0) || (r =? n - 1)) && ((c =? 0) || (c =? n - 1)).

(** ** Lemmas *)

(** A wall survives with at least [GRID_NEIGHBROURS_TO_LIVE] wall
    neighbours; an open cell needs strictly more than
    [GRID_NEIGHBROURS_TO_BORN]. *)
Lemma spec_rule_eq b k :
  spec_rule b k = if b then (5 <=? k)%nat else (6 <=? k)%nat.
Proof.
  unfold spec_rule, GRID_NEIGHBROURS_TO_LIVE, GRID_NEIGHBROURS_TO_BORN.
  destruct b; cbn [andb negb].
  - destruct (Z.ltb_spec (Z.of_nat k) 5), (Nat.leb_spec 5 k); done || lia.
  - destruct (Z.ltb_spec 5 (Z.of_nat k)), (Nat.leb_spec 6 k); done || lia.
Qed.

Lemma spec_rule_mono b1 b2 k1 k2 :
  spec_rule b1 k1 = true → (b1 = true → b2 = true) → k1 ≤ k2 → spec_rule b2 k2 = true.
Proof.
  rewrite !spec_rule_eq. intros H Hb Hk.
  destruct b1, b2; try (specialize (Hb eq_refl); discriminate);
    apply Nat.leb_le; apply Nat.leb_le in H; lia.
Qed.

Section tile.
Context (n : nat) (g : Grid) (Hwf : grid_wf n g) (Hn : (Z.of_nat n < 2 ^ 31)%Z).

Lemma erode_tile_ok y x :
  y < n → x < n →
  erode_tile n g y x = Some (spec_rule (wall g y x) (count_wall_neighbors n g x y)).
Proof.
  intros Hy Hx. unfold erode_tile. rewrite (cell_wall n) by done. simpl.
  rewrite neighbours_count_eq by done. simpl.
  unfold spec_rule. destruct (wall g y x); simpl; by case_match.
Qed.

(** The erosion iteration never panics and writes, into every cell of
    [grid_updated], the rule applied to the prior grid. *)
Lemma erosion_step_tabulate :
  erosion_step n g =
    Some (grid_tabulate n (λ y x, spec_rule (wall g y x) (count_wall_neighbors n g x y))).
Proof.
  unfold erosion_step. apply fill_grid_spec; [|done|].
  - intros y x Hy Hx. by apply erode_tile_ok.
  - rewrite grid_fill_tabulate. apply grid_tabulate_wf.
Qed.
End tile.

Lemma transpose_tabulate_swap n f :
  transpose n (grid_tabulate n f) = grid_tabulate n (λ r c, f c r).
Proof.
  rewrite transpose_tabulate. apply (grid_eq n); [apply grid_tabulate_wf..|].
  intros r c Hr Hc. rewrite !wall_tabulate by done. done.
Qed.

Lemma symmetric_wf n g : symmetric n g → grid_wf n g.
Proof. unfold symmetric. intros <-. rewrite transpose_tabulate. apply grid_tabulate_wf. Qed.

Lemma symmetric_wall n g r c : symmetric n g → wall g c r = wall g r c.
Proof.
  intros Hs. pose proof (symmetric_wf n g Hs) as Hwf. rewrite <-Hs at 2.
  destruct (decide (r < n ∧ c < n)) as [[Hr Hc]|Hout].
  - by rewrite transpose_tabulate, wall_tabulate.
  - rewrite !(wall_out n); [done|apply grid_tabulate_wf|done|done|intros []; auto].
Qed.

Lemma symmetric_count n g r c :
  symmetric n g → count_wall_neighbors n g c r = count_wall_neighbors n g r c.
Proof. intros Hs. rewrite <-count_wall_neighbors_transpose. by rewrite Hs. Qed.

(** On a grid symmetric about its diagonal, the functional form of an
    iteration is the specification's step, and it is symmetric again. *)
Lemma tabulate_symmetric_spec n g :
  symmetric n g →
  grid_tabulate n (λ y x, spec_rule (wall g y x) (count_wall_neighbors n g x y)) = spec_step n g.
Proof.
  intros Hs. unfold spec_step. apply (grid_eq n); [apply grid_tabulate_wf..|].
  intros r c Hr Hc. rewrite !wall_tabulate by done. by rewrite symmetric_count.
Qed.

Lemma tabulate_symmetric_preserved n g :
  symmetric n g →
  symmetric n (grid_tabulate n (λ y x, spec_rule (wall g y x) (count_wall_neighbors n g x y))).
Proof.
  intros Hs. unfold symmetric. rewrite transpose_tabulate_swap.
  apply (grid_eq n); [apply grid_tabulate_wf..|].
  intros r c Hr Hc. rewrite !wall_tabulate by done.
  by rewrite (symmetric_wall n g r c Hs), (symmetric_count n g c r Hs).
Qed.

Lemma length_filter_mono {A} (P Q : A → Prop) `{∀ x, Decision (P x)} `{∀ x, Decision (Q x)}
    (l : list A) :
  (∀ x, P x → Q x) → length (filter P l) ≤ length (filter Q l).
Proof.
  intros HPQ. rewrite <-(list_filter_filter_l P Q) by done. apply length_filter.
Qed.

Lemma count_wall_neighbors_mono n g1 g2 r c :
  grid_le g1 g2 → count_wall_neighbors n g1 r c ≤ count_wall_neighbors n g2 r c.
Proof.
  intros Hle. apply length_filter_mono. intros d [Hin Hw]. split; [done|]. by apply Hle.
Qed.

(** On the all-wall grid every in-grid neighbour is a wall. *)
Lemma count_all_wall n r c :
  r < n → c < n → count_wall_neighbors n (grid_fill n true) r c = span n r * span n c - 1.
Proof.
  intros Hr Hc. rewrite <-in_grid_count by done. unfold count_wall_neighbors. f_equal.
  apply list_filter_iff. intros d. unfold wall_neighbour, in_grid.
  rewrite grid_fill_tabulate. split; [by intros [? _]|].
  intros Hin. split; [done|]. apply wall_tabulate; lia.
Qed.

Lemma span_ge_2 n r : 2 ≤ n → r < n → 2 ≤ span n r.
Proof.
  intros Hn Hr. unfold span. rewrite !filter_cons, !filter_nil.
  destruct (decide (r = 0)), (decide (r + 1 = n)); decide_cases lia; simpl; lia.
Qed.

#[export] Hint Resolve erosion_step_tabulate erode_tile_ok : cave.

(** ** Properties of the erosion iteration *)

(** C2. Synchronous update: on a well-formed grid the iteration never
    panics, produces a grid of the same dimensions, and decides every cell
    [(y, x)] from the unmodified prior grid: its own state and the wall
    count [neighbours] returns for it, which is the count around the
    transposed cell [(x, y)]. *)
Theorem erosion_step_synchronous n g :
  grid_wf n g → (Z.of_nat n < 2 ^ 31)%Z →
  ∃ g', erosion_step n g = Some g' ∧ grid_wf n g' ∧
    ∀ y x, y < n → x < n →
      wall g' y x = spec_rule (wall g y x) (count_wall_neighbors n g x y).
Proof.
  intros Hwf Hn. eexists. split; [by apply erosion_step_tabulate|].
  split; [apply grid_tabulate_wf|]. intros y x Hy Hx. by apply wall_tabulate.
Qed.

Lemma erosion_step_synchronous_witness :
  ∃ g', erosion_step 3 (grid_fill 3 true) = Some g' ∧ grid_wf 3 g' ∧
    ∀ y x, y < 3 → x < 3 →
      wall g' y x = spec_rule (wall (grid_fill 3 true) y x)
                              (count_wall_neighbors 3 (grid_fill 3 true) x y).
Proof.
  apply erosion_step_synchronous; [split; [reflexivity | repeat constructor] | lia].
Defined.

(** C5. The rule each tile follows, branch by branch: a wall tile stays a
    wall exactly when [neighbours] counts at least
    [GRID_NEIGHBROURS_TO_LIVE] = 5 walls ([<] for death), an open tile
    becomes a wall exactly when it counts strictly more than
    [GRID_NEIGHBROURS_TO_BORN] = 5 ([>] for birth). *)
Theorem erode_tile_rule n g y x k :
  grid_wf n g → (Z.of_nat n < 2 ^ 31)%Z → y < n → x < n →
  neighbours n (Z.of_nat x, Z.of_nat y) g = Some k →
  erode_tile n g y x =
    Some (if wall g y x then (GRID_NEIGHBROURS_TO_LIVE <=? k)%Z
          else (GRID_NEIGHBROURS_TO_BORN <? k)%Z).
Proof.
  intros Hwf Hn Hy Hx Hk. rewrite erode_tile_ok by done.
  rewrite neighbours_count_eq in Hk by done. injection Hk as <-.
  rewrite spec_rule_eq. unfold GRID_NEIGHBROURS_TO_LIVE, GRID_NEIGHBROURS_TO_BORN.
  destruct (wall g y x); f_equal.
  - destruct (Nat.leb_spec 5 (count_wall_neighbors n g x y)),
      (Z.leb_spec 5 (Z.of_nat (count_wall_neighbors n g x y))); done || lia.
  - destruct (Nat.leb_spec 6 (count_wall_neighbors n g x y)),
      (Z.ltb_spec 5 (Z.of_nat (count_wall_neighbors n g x y))); done || lia.
Qed.

Lemma erode_tile_rule_witness :
  erode_tile 3 (grid_fill 3 true) 0 0 =
    Some (if wall (grid_fill 3 true) 0 0 then (GRID_NEIGHBROURS_TO_LIVE <=? 3)%Z
          else (GRID_NEIGHBROURS_TO_BORN <? 3)%Z).
Proof.
  apply erode_tile_rule;
    [split; [reflexivity | repeat constructor] | lia | lia | lia | vm_compute; reflexivity].
Defined.

(** C4. Refinement: on a grid symmetric about its diagonal, the code's
    iteration is the specification's synchronous step. *)
Theorem erosion_step_refines_spec n g :
  symmetric n g → (Z.of_nat n < 2 ^ 31)%Z → erosion_step n g = Some (spec_step n g).
Proof.
  intros Hs Hn. rewrite erosion_step_tabulate by auto using symmetric_wf.
  by rewrite tabulate_symmetric_spec.
Qed.

Lemma erosion_step_refines_spec_witness :
  erosion_step 3 (grid_fill 3 true) = Some (spec_step 3 (grid_fill 3 true)).
Proof. apply erosion_step_refines_spec; [vm_compute; reflexivity | lia]. Defined.

(** C3. Divergence from the specification at the program's size: on the
    50 by 50 grid whose first two rows are walls, the specification keeps
    the wall in row 0, column 1 (five wall neighbours), while the code
    erodes it, because [neighbours([x, y], grid)] reads
    [grid[x + dx][y + dy]] and counts the three walls around row 1,
    column 0 instead. *)
Theorem erosion_step_transposed_count :
  ∃ g', erosion_step GRID_SIZE (grid_tabulate GRID_SIZE (λ r _, r <? 2)) = Some g' ∧
    wall g' 0 1 = false ∧
    wall (spec_step GRID_SIZE (grid_tabulate GRID_SIZE (λ r _, r <? 2))) 0 1 = true.
Proof. eexists. split; [vm_compute; reflexivity|]. split; vm_compute; reflexivity. Qed.

(** C13. The all-open grid is a fixed point: no wall is born without
    wall neighbours. *)
Theorem erosion_step_all_open n :
  (Z.of_nat n < 2 ^ 31)%Z → erosion_step n (grid_fill n false) = Some (grid_fill n false).
Proof.
  intros Hn. rewrite erosion_step_tabulate.
  2: rewrite grid_fill_tabulate; apply grid_tabulate_wf. 2: done.
  f_equal. rewrite grid_fill_tabulate. apply (grid_eq n); [apply grid_tabulate_wf..|].
  intros y x Hy Hx. rewrite !wall_tabulate by done.
  assert (count_wall_neighbors n (grid_tabulate n (λ _ _, false)) x y = 0) as ->.
  { unfold count_wall_neighbors. apply Nat.le_0_r.
    etrans; [apply (length_filter_mono _ (λ _, False))|].
    - intros d [Hin Hw]. rewrite wall_tabulate in Hw by (unfold in_grid in Hin; lia).
      discriminate.
    - rewrite moore_offsets_eq. vm_compute. lia. }
  done.
Qed.

Lemma erosion_step_all_open_witness :
  erosion_step GRID_SIZE (grid_fill GRID_SIZE false) = Some (grid_fill GRID_SIZE false).
Proof. apply erosion_step_all_open. vm_compute. reflexivity. Defined.

(** C14. The all-wall grid is not a fixed point: every tile keeps its
    wall except the four corners, which have only three wall neighbours,
    fewer than [GRID_NEIGHBROURS_TO_LIVE], and erode on the first
    iteration. *)
Theorem erosion_step_all_wall n :
  2 ≤ n → (Z.of_nat n < 2 ^ 31)%Z →
  erosion_step n (grid_fill n true) = Some (grid_tabulate n (λ r c, negb (is_corner n r c))).
Proof.
  intros H2 Hn. rewrite erosion_step_tabulate.
  2: rewrite grid_fill_tabulate; apply grid_tabulate_wf. 2: done.
  f_equal. apply (grid_eq n); [apply grid_tabulate_wf..|].
  intros y x Hy Hx. rewrite !wall_tabulate by done.
  rewrite count_all_wall by done. rewrite grid_fill_tabulate, wall_tabulate by done.
  rewrite spec_rule_eq.
  pose proof (span_ge_2 n x H2 Hx). pose proof (span_ge_2 n y H2 Hy).
  unfold is_corner.
  destruct (decide (y = 0 ∨ y = n - 1)) as [Hby|Hby], (decide (x = 0 ∨ x = n - 1)) as [Hbx|Hbx].
  - pose proof (span_border n x Hx Hbx). pose proof (span_border n y Hy Hby).
    replace ((y =? 0) || (y =? n - 1)) with true by (destruct Hby; subst; by rewrite ?Nat.eqb_refl, ?orb_true_r).
    replace ((x =? 0) || (x =? n - 1)) with true by (destruct Hbx; subst; by rewrite ?Nat.eqb_refl, ?orb_true_r).
    cbn [negb andb]. apply Nat.leb_gt. nia.
  - rewrite (span_inner n x) by lia.
    destruct (Nat.eqb_spec x 0), (Nat.eqb_spec x (n - 1)); try lia. rewrite andb_false_r.
    cbn [negb andb]. apply Nat.leb_le. nia.
  - rewrite (span_inner n y) by lia.
    destruct (Nat.eqb_spec y 0), (Nat.eqb_spec y (n - 1)); try lia.
    cbn [negb andb]. apply Nat.leb_le. nia.
  - rewrite (span_inner n y), (span_inner n x) by lia.
    destruct (Nat.eqb_spec y 0), (Nat.eqb_spec y (n - 1)); try lia.
    cbn [negb andb]. apply Nat.leb_le. nia.
Qed.

Lemma erosion_step_all_wall_witness :
  erosion_step 3 (grid_fill 3 true) = Some (grid_tabulate 3 (λ r c, negb (is_corner 3 r c))).
Proof. apply erosion_step_all_wall; [lia | lia]. Defined.

(** C16. The iteration is monotone: more walls before give at least as
    many walls after, tile by tile. *)
Theorem erosion_step_monotone n g1 g2 g1' g2' :
  grid_wf n g1 → grid_wf n g2 → grid_le g1 g2 →
  erosion_step n g1 = Some g1' → erosion_step n g2 = Some g2' → (Z.of_nat n < 2 ^ 31)%Z →
  grid_le g1' g2'.
Proof.
  intros Hw1 Hw2 Hle H1 H2 Hn.
  rewrite erosion_step_tabulate in H1, H2 by done. injection H1 as <-. injection H2 as <-.
  intros y x. destruct (decide (y < n ∧ x < n)) as [[Hy Hx]|Hout].
  - rewrite !wall_tabulate by done. intros Hr. eapply spec_rule_mono; [done|apply Hle|].
    apply count_wall_neighbors_mono, Hle.
  - by rewrite (wall_out n); [|apply grid_tabulate_wf|].
Qed.

Lemma erosion_step_monotone_witness :
  grid_le (grid_fill 3 false) (grid_tabulate 3 (λ r c, negb (is_corner 3 r c))).
Proof.
  apply (erosion_step_monotone 3 [[false; false; false]; [false; true; false]; [false; false; false]]
           (grid_fill 3 true));
    [split; [reflexivity | repeat constructor] | split; [reflexivity | repeat constructor]
    | intros r c; rewrite grid_fill_tabulate; unfold wall; rewrite cell_tabulate;
      simpl; intros Hw; case_decide; [done|]; destruct r as [|[|[|r]]]; try discriminate;
      destruct c as [|[|[|c]]]; simpl in *; discriminate || lia
    | vm_compute; reflexivity | vm_compute; reflexivity | lia].
Defined.

(** C17. Symmetry about the diagonal is an invariant of the iteration: on
    such grids the transposed count does no harm. *)
Theorem erosion_step_preserves_symmetric n g g' :
  symmetric n g → (Z.of_nat n < 2 ^ 31)%Z → erosion_step n g = Some g' → symmetric n g'.
Proof.
  intros Hs Hn Hg. rewrite erosion_step_tabulate in Hg by auto using symmetric_wf.
  injection Hg as <-. by apply tabulate_symmetric_preserved.
Qed.

Lemma erosion_step_preserves_symmetric_witness :
  symmetric 3 (grid_tabulate 3 (λ r c, negb (is_corner 3 r c))).
Proof.
  apply (erosion_step_preserves_symmetric 3 (grid_fill 3 true));
    [vm_compute; reflexivity | lia | vm_compute; reflexivity].
Defined.
