(* ===== verification/Render.v ===== *)
(** * Render: [UiTileState] and [print_grid] (main.rs 19-42)

    [print_grid] writes, for every row of the grid, one glyph per tile
    ([UI_TILES_STATES.wall] for a wall, [UI_TILES_STATES.blank] for open
    space) and then a newline. The model is the list of bytes written to
    standard output: the glyphs are the UTF-8 encodings of "██" (U+2588
    twice) and "░░" (U+2591 twice). [parse_grid] reads such output back;
    the round trip shows that the printed text determines the grid. *)

From S2P Require Import Prelude Grid.
From Stdlib Require Import Strings.Byte.

Abbreviation bytes := (list Byte.byte).

(** ** The code *)

(** [pub struct UiTileState { pub blank: &'static str, pub wall: &'static str }] *)
Module UiTileState.
Record t := mk { blank : bytes; wall : bytes }.
End UiTileState.

(** [pub const UI_TILES_STATES] (main.rs 25-28). *)
Definition UI_TILES_STATES : UiTileState.t :=
  {| UiTileState.blank := [Byte.xe2; Byte.x96; Byte.x91; Byte.xe2; Byte.x96; Byte.x91];
     UiTileState.wall := [Byte.xe2; Byte.x96; Byte.x88; Byte.xe2; Byte.x96; Byte.x88] |}.

(** [if *tile { print!("{}", wall) } else { print!("{}", blank) }] *)
Definition print_tile (tile : bool) : bytes :=
  if tile then UiTileState.wall UI_TILES_STATES else UiTileState.blank UI_TILES_STATES.

(** One row, then [println!()]. *)
Definition print_line (line : list bool) : bytes :=
  concat (print_tile <$> line) ++ [Byte.x0a].

(** [fn print_grid(grid: &[[bool; GRID_SIZE]; GRID_SIZE])] *)
Definition print_grid (grid : Grid) : bytes := concat (print_line <$> grid).

(** ** Reading the output back *)

(** [line] holds the tiles of the current row read so far. *)
Fixpoint parse_rows (bs : bytes) (line : list bool) : option Grid :=
  match bs with
  | [] => match line with [] => Some [] | _ => None end
  | Byte.x0a :: rest => rows ← parse_rows rest []; Some (line :: rows)
  | Byte.xe2 :: Byte.x96 :: Byte.x88 :: Byte.xe2 :: Byte.x96 :: Byte.x88 :: rest =>
      parse_rows rest (line ++ [true])
  | Byte.xe2 :: Byte.x96 :: Byte.x91 :: Byte.xe2 :: Byte.x96 :: Byte.x91 :: rest =>
      parse_rows rest (line ++ [false])
  | _ => None
  end.

Definition parse_grid (bs : bytes) : option Grid := parse_rows bs [].

(** ** Lemmas *)

Lemma parse_rows_line line acc rest :
  parse_rows (concat (print_tile <$> line) ++ Byte.x0a :: rest) acc =
    rows ← parse_rows rest []; Some ((acc ++ line) :: rows).
Proof.
  revert acc. induction line as [|t line IH]; intros acc.
  - by rewrite app_nil_r.
  - rewrite fmap_cons. simpl. rewrite <-app_assoc.
    destruct t; simpl; rewrite IH, <-app_assoc; done.
Qed.

Lemma parse_rows_print_line line acc rest :
  parse_rows (print_line line ++ rest) acc =
    rows ← parse_rows rest []; Some ((acc ++ line) :: rows).
Proof. unfold print_line. rewrite <-app_assoc. apply parse_rows_line. Qed.

Lemma length_print_line line : length (print_line line) = 6 * length line + 1.
Proof.
  unfold print_line. rewrite length_app. f_equal.
  induction line as [|t line IH]; [done|].
  rewrite fmap_cons. simpl. rewrite length_app, IH. destruct t; simpl; lia.
Qed.

(** ** Properties of [print_grid] *)

(** C15. Round trip: the bytes [print_grid] writes parse back to the grid
    it was given, whatever its shape. *)
Theorem print_grid_roundtrip g : parse_grid (print_grid g) = Some g.
Proof.
  unfold parse_grid, print_grid. induction g as [|line g IH]; [done|].
  rewrite fmap_cons. cbn [concat]. by rewrite parse_rows_print_line, IH.
Qed.

Lemma length_print_grid_rows m g :
  Forall (λ line, length line = m) g → length (print_grid g) = length g * (6 * m + 1).
Proof.
  unfold print_grid. induction 1 as [|line g Hline _ IH]; [done|].
  rewrite fmap_cons. simpl. rewrite length_app, length_print_line, Hline, IH. lia.
Qed.

(** C19. Size of the output: an [n] by [n] grid prints [n] lines of [n]
    six-byte glyphs and a newline; at [GRID_SIZE] that is 15050 bytes. *)
Theorem print_grid_length n g :
  grid_wf n g → length (print_grid g) = n * (6 * n + 1).
Proof. intros [Hlen Hrows]. rewrite (length_print_grid_rows n) by done. by rewrite Hlen. Qed.

Lemma print_grid_length_witness :
  length (print_grid (grid_fill GRID_SIZE true)) = GRID_SIZE * (6 * GRID_SIZE + 1).
Proof. apply print_grid_length. split; [reflexivity | vm_compute; repeat constructor]. Defined.
