(* ===== verification/Float.v ===== *)
(** * Float: [str::parse::<f64>] (called at main.rs 145) and the [f64] values it returns

    The standard library's [f64::from_str] ([core::num::dec2flt]) is not
    code of this repository; this file models it from its source:
    [dec2flt] strips one sign, then [parse_number] reads
    [digits ['.' digits] [('e'|'E') [sign] digits]] (at least one digit
    before or after the point; the exponent saturates at [0x10000]) and
    the whole text must be consumed; otherwise [parse_inf_nan] accepts
    ["inf"], ["infinity"] and ["nan"] in any case. The decimal value is
    rounded to the nearest [f64], ties to even ([round_f64]): in the normal
    range with a 53-bit significand, below [2^-1022] with the fixed quantum
    [2^-1074], and to infinity from [2^1024] on. A finite [f64] is the
    rational it denotes ([Finite q], with [Finite] a coercion from [Q]); the
    sign of a zero is dropped, as nothing in the program tells [-0.0] from
    [0.0]. The error kinds of [ParseFloatError] are not kept: [main]
    discards them. *)

From S2P Require Import Prelude.
From Stdlib Require Import QArith Qround Qpower Qabs Qminmax Lqa.
Local Open Scope Z_scope.

(** An input line: its Unicode scalar values. *)
Abbreviation text := (list Z).

(** ** [f64] values *)

Inductive F64 := Finite (q : Q) | PosInf | NegInf | NaN.

Coercion Finite : Q >-> F64.

(** [-x] *)
Definition f64_neg (x : F64) : F64 :=
  match x with Finite q => Finite (- q)%Q | PosInf => NegInf | NegInf => PosInf | NaN => NaN end.

(** The [f64] values in [[0, 1]], those [Bernoulli::new] accepts. *)
Definition f64_in_unit (x : F64) : Prop :=
  match x with Finite q => (0 <= q <= 1)%Q | _ => False end.

(** ** Rounding a non-negative rational to the nearest [f64] *)

Definition pow2 (k : Z) : Q := Qpower (2 # 1) k.

(** [floor (log2 r)] for [r > 0]. *)
Definition qlog2 (r : Q) : Z :=
  let e0 := Z.log2 (Qnum r) - Z.log2 (Zpos (Qden r)) in
  if Qle_bool (pow2 e0) r then e0 else e0 - 1.

Definition round_half_even (x : Q) : Z :=
  let f := Qfloor x in
  match Qcompare (x - inject_Z f) (1 # 2) with
  | Lt => f | Gt => f + 1 | Eq => if Z.even f then f else f + 1 end.

(** For [r > 0]: the exponent is [qlog2 r], at least [-1022] (subnormals);
    the significand [r * 2^(52 - e)] is rounded to an integer. *)
Definition round_pos (r : Q) : F64 :=
  let e := Z.max (qlog2 r) (-1022) in
  let v := (inject_Z (round_half_even (r * pow2 (52 - e))) * pow2 (e - 52))%Q in
  if Qle_bool (pow2 1024) v then PosInf else Finite (Qred v).

(** Rounding to nearest is symmetric about 0. *)
Definition round_f64 (r : Q) : F64 :=
  if Qeq_bool r 0 then Finite 0
  else if Qle_bool 0 r then round_pos r else f64_neg (round_pos (- r)).

(** ** [dec2flt] *)

Definition is_digit (c : Z) : bool := (48 <=? c) && (c <=? 57).

(** [try_parse_digits]: the longest prefix of ASCII digits, and the rest. *)
Fixpoint try_parse_digits (s : text) : text * text :=
  match s with
  | c :: rest => if is_digit c then let '(ds, r) := try_parse_digits rest in (c :: ds, r) else ([], s)
  | [] => ([], [])
  end.

Definition digits_value (ds : text) : Z := fold_left (λ acc c, acc * 10 + (c - 48)) ds 0.

(** [parse_scientific]: an optional sign, then at least one digit; the
    exponent stops growing once it reaches [0x10000]. *)
Definition parse_scientific (s : text) : option (Z * text) :=
  let '(negative, s) := match s with
                        | c :: r => if c =? 45 then (true, r) else if c =? 43 then (false, r) else (false, s)
                        | [] => (false, s)
                        end in
  match try_parse_digits s with
  | ([], _) => None
  | (ds, rest) =>
      let e := fold_left (λ e c, if e <? 65536 then 10 * e + (c - 48) else e) ds 0 in
      Some (if negative then - e else e, rest)
  end.

(** [parse_partial_number]: the digits before and after the point (at
    least one in all), the exponent, and what is left. *)
Definition parse_partial_number (s : text) : option (Q * text) :=
  let '(int, s1) := try_parse_digits s in
  let '(frac, s2) := match s1 with 46 :: r => try_parse_digits r | _ => ([], s1) end in
  if (length int + length frac =? 0)%nat then None else
  let exp := match s2 with
             | c :: r => if (c =? 101) || (c =? 69) then parse_scientific r else Some (0, s2)
             | [] => Some (0, s2)
             end in
  match exp with
  | Some (e, rest) =>
      Some ((inject_Z (digits_value (int ++ frac)) * Qpower (10 # 1) (e - Z.of_nat (length frac)))%Q, rest)
  | None => None
  end.

(** [parse_number]: the whole text is a number. *)
Definition parse_number (s : text) : option Q :=
  match parse_partial_number s with Some (r, []) => Some r | _ => None end.

(** The ASCII letter [u] (upper case) in either case. *)
Definition letter_ci (c u : Z) : bool := (c =? u) || (c =? u + 32).

(** [parse_inf_nan]: ["inf"], ["nan"] or ["infinity"], in any case. *)
Definition parse_inf_nan (s : text) : option F64 :=
  match s with
  | [a; b; c] =>
      if letter_ci a 73 && letter_ci b 78 && letter_ci c 70 then Some PosInf
      else if letter_ci a 78 && letter_ci b 65 && letter_ci c 78 then Some NaN else None
  | [a; b; c; d; e; f; g; h] =>
      if letter_ci a 73 && letter_ci b 78 && letter_ci c 70 && letter_ci d 73 && letter_ci e 78
         && letter_ci f 73 && letter_ci g 84 && letter_ci h 89
      then Some PosInf else None
  | _ => None
  end.

(** The value of the decimal numeral [int.frac]: what [dec2flt] rounds. *)
Definition decimal_value (int frac : text) : Q :=
  (inject_Z (digits_value (int ++ frac)) / inject_Z (10 ^ Z.of_nat (length frac)))%Q.

(** [dec2flt]: [None] is a [ParseFloatError]. *)
Definition parse_f64 (s : text) : option F64 :=
  match s with
  | [] => None
  | c :: rest =>
      let negative := c =? 45 in
      let s' := if (c =? 45) || (c =? 43) then rest else s in
      match s' with
      | [] => None
      | _ => match parse_number s' with
             | Some r => Some (if negative then f64_neg (round_f64 r) else round_f64 r)
             | None => option_map (λ f, if negative then f64_neg f else f) (parse_inf_nan s')
             end
      end
  end.

(** ** Lemmas *)

Lemma pow2_pos k : (0 < pow2 k)%Q.
Proof. apply Qpower_0_lt. reflexivity. Qed.

Lemma pow2_plus k l : (pow2 (k + l) == pow2 k * pow2 l)%Q.
Proof. apply Qpower_plus. discriminate. Qed.

Lemma pow2_nonneg_Z k : 0 <= k → (pow2 k == inject_Z (2 ^ k))%Q.
Proof. intros Hk. unfold pow2. rewrite Zpower_Qpower by done. reflexivity. Qed.

Lemma pow2_neg_Z k : k < 0 → (pow2 k * inject_Z (2 ^ (- k)) == 1)%Q.
Proof.
  intros Hk. rewrite <-pow2_nonneg_Z by lia. rewrite <-pow2_plus.
  replace (k + - k) with 0 by lia. reflexivity.
Qed.

Lemma pow2_le_Qmake k n d :
  (pow2 k <= n # d)%Q ↔ (if 0 <=? k then 2 ^ k * Zpos d <= n else Zpos d <= n * 2 ^ (- k)).
Proof.
  destruct (Z.leb_spec 0 k) as [Hk|Hk].
  - rewrite pow2_nonneg_Z by done. unfold Qle. simpl. lia.
  - assert (0 < 2 ^ (- k)) by (apply Z.pow_pos_nonneg; lia).
    rewrite <-(Qmult_le_r _ _ (inject_Z (2 ^ (- k)))) by (unfold Qlt; simpl; lia).
    rewrite pow2_neg_Z by done. unfold Qle. simpl. lia.
Qed.

Lemma pow2_lt_Qmake k n d :
  (n # d < pow2 k)%Q ↔ (if 0 <=? k then n < 2 ^ k * Zpos d else n * 2 ^ (- k) < Zpos d).
Proof.
  pose proof (pow2_le_Qmake k n d) as H.
  split; [intros Hlt; apply Qlt_not_le in Hlt; rewrite H in Hlt; destruct (0 <=? k); lia
         |intros Hz; apply Qnot_le_lt; rewrite H; destruct (0 <=? k); lia].
Qed.

Lemma pow2_succ k : (pow2 (k + 1) == 2 * pow2 k)%Q.
Proof. rewrite pow2_plus. unfold pow2 at 2. simpl. ring. Qed.

Section log2.
Context (n : Z) (d : positive) (Hn : 0 < n).
Let a := Z.log2 n.
Let b := Z.log2 (Zpos d).
Lemma log2_facts : 2 ^ a <= n < 2 ^ (a + 1) ∧ 2 ^ b <= Zpos d < 2 ^ (b + 1) ∧ 0 <= a ∧ 0 <= b.
Proof.
  unfold a, b. pose proof (Z.log2_spec n Hn). pose proof (Z.log2_spec (Zpos d) ltac:(lia)).
  rewrite !Z.add_1_r.
  pose proof (Z.log2_nonneg n). pose proof (Z.log2_nonneg (Zpos d)). lia.
Qed.

Lemma qlog2_upper : (n # d < pow2 (a - b + 1))%Q.
Proof.
  destruct log2_facts as ([] & [] & ? & ?). apply pow2_lt_Qmake.
  destruct (Z.leb_spec 0 (a - b + 1)).
  - assert (2 ^ (a + 1) = 2 ^ (a - b + 1) * 2 ^ b) by (rewrite <-Z.pow_add_r by lia; f_equal; lia).
    assert (0 < 2 ^ (a - b + 1)) by (apply Z.pow_pos_nonneg; lia). nia.
  - assert (2 ^ b = 2 ^ (a + 1) * 2 ^ (- (a - b + 1))) by (rewrite <-Z.pow_add_r by lia; f_equal; lia).
    assert (0 < 2 ^ (- (a - b + 1))) by (apply Z.pow_pos_nonneg; lia). nia.
Qed.

Lemma qlog2_lower : (pow2 (a - b - 1) <= n # d)%Q.
Proof.
  destruct log2_facts as ([] & [] & ? & ?). apply pow2_le_Qmake.
  destruct (Z.leb_spec 0 (a - b - 1)).
  - assert (2 ^ a = 2 ^ (a - b - 1) * 2 ^ (b + 1)) by (rewrite <-Z.pow_add_r by lia; f_equal; lia).
    assert (0 < 2 ^ (a - b - 1)) by (apply Z.pow_pos_nonneg; lia). nia.
  - assert (2 ^ (b + 1) = 2 ^ a * 2 ^ (- (a - b - 1))) by (rewrite <-Z.pow_add_r by lia; f_equal; lia).
    assert (0 < 2 ^ (- (a - b - 1))) by (apply Z.pow_pos_nonneg; lia). nia.
Qed.
End log2.

Lemma qlog2_spec r : (0 < r)%Q → (pow2 (qlog2 r) <= r < pow2 (qlog2 r + 1))%Q.
Proof.
  destruct r as [n d]. intros Hr. assert (0 < n) by (unfold Qlt in Hr; simpl in Hr; lia).
  pose proof (qlog2_upper n d H). pose proof (qlog2_lower n d H).
  unfold qlog2. cbn [Qnum Qden]. destruct (Qle_bool _ _) eqn:E.
  - apply Qle_bool_iff in E. done.
  - apply not_true_iff_false in E. rewrite Qle_bool_iff in E. apply Qnot_le_lt in E.
    split; [done|]. by rewrite Z.sub_add.
Qed.

Lemma round_half_even_cases x :
  (round_half_even x = Qfloor x ∧ (x - inject_Z (Qfloor x) <= 1 # 2)%Q) ∨
  (round_half_even x = Qfloor x + 1 ∧ (1 # 2 <= x - inject_Z (Qfloor x))%Q).
Proof.
  unfold round_half_even. destruct (Qcompare_spec (x - inject_Z (Qfloor x)) (1 # 2)) as [H|H|H].
  - destruct (Z.even _); [left|right]; split; try done; rewrite H; apply Qle_refl.
  - left. split; [done|]. by apply Qlt_le_weak.
  - right. split; [done|]. by apply Qlt_le_weak.
Qed.

Lemma round_half_even_error x : (Qabs (inject_Z (round_half_even x) - x) <= 1 # 2)%Q.
Proof.
  pose proof (Qfloor_le x). pose proof (Qlt_floor x). rewrite inject_Z_plus in *.
  apply Qabs_case; intros _;
    destruct (round_half_even_cases x) as [[-> ?]|[-> ?]]; rewrite ?inject_Z_plus; change (inject_Z 1) with 1%Q in *; lra.
Qed.

Lemma round_half_even_le x K : (x <= inject_Z K)%Q → round_half_even x <= K.
Proof.
  intros Hx. pose proof (Qfloor_le x).
  destruct (round_half_even_cases x) as [[-> ?]|[-> ?]].
  - rewrite Zle_Qle. lra.
  - assert (inject_Z (Qfloor x) < inject_Z K)%Q as Hlt by lra. rewrite <-Zlt_Qlt in Hlt. lia.
Qed.

Lemma round_half_even_nonneg x : (0 <= x)%Q → 0 <= round_half_even x.
Proof.
  intros Hx. pose proof (Qfloor_resp_le 0 x Hx) as H. change (Qfloor 0) with 0%Z in H.
  destruct (round_half_even_cases x) as [[-> ?]|[-> ?]]; lia.
Qed.

Lemma pow2_mono k l : k <= l → (pow2 k <= pow2 l)%Q.
Proof. intros. apply Qpower_le_compat_l; [done|]. unfold Qle; simpl; lia. Qed.

Lemma pow2_inv k : (pow2 (- k) * pow2 k == 1)%Q.
Proof. rewrite <-pow2_plus. by replace (- k + k) with 0 by lia. Qed.

(** The value [m * 2^k] of the rounded significand differs from [r] by the
    rounding error of the significand, scaled. *)
Lemma round_scaled r k :
  (inject_Z (round_half_even (r * pow2 (- k))) * pow2 k - r ==
     (inject_Z (round_half_even (r * pow2 (- k))) - r * pow2 (- k)) * pow2 k)%Q.
Proof.
  set (m := inject_Z _).
  setoid_replace ((m - r * pow2 (- k)) * pow2 k)%Q with (m * pow2 k - r * (pow2 (- k) * pow2 k))%Q
    using relation Qeq by ring.
  rewrite pow2_inv. ring.
Qed.

Lemma round_scaled_error r k :
  (Qabs (inject_Z (round_half_even (r * pow2 (- k))) * pow2 k - r) <= pow2 (k - 1))%Q.
Proof.
  rewrite round_scaled, Qabs_Qmult, (Qabs_pos (pow2 k)) by apply Qlt_le_weak, pow2_pos.
  replace (k - 1) with (-1 + k) by lia. rewrite pow2_plus.
  apply Qmult_le_compat_r; [apply round_half_even_error | apply Qlt_le_weak, pow2_pos].
Qed.

Lemma round_f64_pos r : (0 < r)%Q →
  let e := Z.max (qlog2 r) (-1022) in
  let v := (inject_Z (round_half_even (r * pow2 (52 - e))) * pow2 (e - 52))%Q in
  round_f64 r = if Qle_bool (pow2 1024) v then PosInf else Finite (Qred v).
Proof.
  intros Hr e v. unfold round_f64. destruct (Qeq_bool r 0) eqn:E.
  - apply Qeq_bool_iff in E. lra.
  - destruct (Qle_bool 0 r) eqn:E'; [done|]. apply not_true_iff_false in E'.
    rewrite Qle_bool_iff in E'. lra.
Qed.

Theorem round_f64_error r q :
  (0 <= r)%Q → round_f64 r = Finite q → (Qabs (q - r) <= Qmax (pow2 (-53) * r) (pow2 (-1075)))%Q.
Proof.
  intros Hr Hq. destruct (Qeq_dec r 0) as [H0|H0].
  - unfold round_f64 in Hq. rewrite (proj2 (Qeq_bool_iff r 0) H0) in Hq. injection Hq as <-.
    rewrite H0. simpl. apply Qle_trans with (pow2 (-1075)); [apply Qlt_le_weak, pow2_pos|apply Q.le_max_r].
  - assert (0 < r)%Q as Hpos by (apply Qle_lteq in Hr as [|]; [done|]; by symmetry in H).
    rewrite round_f64_pos in Hq by done. destruct (Qle_bool _ _); [done|]. injection Hq as <-.
    rewrite Qred_correct. set (e := Z.max (qlog2 r) (-1022)).
    replace (52 - e) with (- (e - 52)) by lia.
    eapply Qle_trans; [apply round_scaled_error|]. replace (e - 52 - 1) with (-53 + e) by lia.
    rewrite pow2_plus. destruct (Z.max_spec (qlog2 r) (-1022)) as [[_ He]|[_ He]]; fold e in He.
    + apply Qle_trans with (pow2 (-1075)); [|apply Q.le_max_r].
      rewrite He, <-pow2_plus. apply Qle_refl.
    + apply Qle_trans with (pow2 (-53) * r)%Q; [|apply Q.le_max_l].
      apply Qmult_le_l; [apply pow2_pos|]. rewrite He. apply qlog2_spec, Hpos.
Qed.

Lemma round_scaled_le r k K :
  (r * pow2 (- k) <= pow2 K)%Q → 0 <= K →
  (inject_Z (round_half_even (r * pow2 (- k))) * pow2 k <= pow2 (K + k))%Q.
Proof.
  intros Hx HK. rewrite (pow2_nonneg_Z K) in Hx by done. rewrite pow2_plus, (pow2_nonneg_Z K) by done.
  apply Qmult_le_compat_r; [|apply Qlt_le_weak, pow2_pos].
  rewrite <-Zle_Qle. by apply round_half_even_le.
Qed.

Lemma round_scaled_nonneg r k : (0 <= r)%Q →
  (0 <= inject_Z (round_half_even (r * pow2 (- k))) * pow2 k)%Q.
Proof.
  intros Hr. apply Qmult_le_0_compat; [|apply Qlt_le_weak, pow2_pos].
  change 0%Q with (inject_Z 0). rewrite <-Zle_Qle. apply round_half_even_nonneg.
  apply Qmult_le_0_compat; [done|apply Qlt_le_weak, pow2_pos].
Qed.

Theorem round_f64_unit r : (0 <= r <= 1)%Q → ∃ q, round_f64 r = Finite q ∧ (0 <= q <= 1)%Q.
Proof.
  intros [Hr0 Hr1]. destruct (Qeq_dec r 0) as [H0|H0].
  - exists 0%Q. unfold round_f64. rewrite (proj2 (Qeq_bool_iff r 0) H0). split; [done|lra].
  - assert (0 < r)%Q as Hpos by (apply Qle_lteq in Hr0 as [|]; [done|]; by symmetry in H).
    destruct (qlog2_spec r Hpos) as [Hlo Hhi].
    assert (qlog2 r <= 0).
    { destruct (Z.le_gt_cases (qlog2 r) 0) as [|Hgt]; [done|].
      pose proof (pow2_mono 1 (qlog2 r) ltac:(lia)). unfold pow2 at 1 in H. simpl in H. lra. }
    set (e := Z.max (qlog2 r) (-1022)).
    set (v := (inject_Z (round_half_even (r * pow2 (52 - e))) * pow2 (e - 52))%Q).
    assert (0 <= v <= 1)%Q as [Hv0 Hv1].
    { unfold v. replace (52 - e) with (- (e - 52)) by lia. split; [by apply round_scaled_nonneg|].
      destruct (Z.le_gt_cases (-1) e).
      - eapply Qle_trans; [apply (round_scaled_le _ _ (- (e - 52))); [|lia]|].
        + rewrite <-(Qmult_1_l (pow2 _)) at 2. apply Qmult_le_compat_r; [done|apply Qlt_le_weak, pow2_pos].
        + replace (- (e - 52) + (e - 52)) with 0 by lia. apply Qle_refl.
      - eapply Qle_trans; [apply (round_scaled_le _ _ 53); [|lia]|].
        + replace 53 with (e + 1 + - (e - 52)) by lia. rewrite pow2_plus.
          apply Qmult_le_compat_r; [|apply Qlt_le_weak, pow2_pos]. apply Qlt_le_weak.
          eapply Qlt_le_trans; [apply Hhi|]. apply pow2_mono. lia.
        + change 1%Q with (pow2 0). apply pow2_mono. lia. }
    exists (Qred v). rewrite round_f64_pos by done. fold e. fold v.
    destruct (Qle_bool (pow2 1024) v) eqn:E.
    + apply Qle_bool_iff in E. pose proof (pow2_mono 1 1024 ltac:(lia)) as H2.
      change (pow2 1) with 2%Q in H2. lra.
    + split; [done|]. by rewrite Qred_correct.
Qed.

(** ** [round_f64] respects [Qeq]: it depends only on the rational *)

Lemma pow2_lt k l : k < l → (pow2 k < pow2 l)%Q.
Proof.
  intros Hkl. apply Qlt_le_trans with (pow2 (k + 1)); [|apply pow2_mono; lia].
  rewrite pow2_succ. pose proof (pow2_pos k). lra.
Qed.

Lemma qlog2_unique r e : (pow2 e <= r < pow2 (e + 1))%Q → qlog2 r = e.
Proof.
  intros [Hlo Hhi]. assert (0 < r)%Q as Hr by (pose proof (pow2_pos e); lra).
  destruct (qlog2_spec r Hr) as [Hlo' Hhi'].
  destruct (Z.lt_trichotomy (qlog2 r) e) as [Hlt|[|Hgt]]; [|done|].
  - pose proof (pow2_mono (qlog2 r + 1) e ltac:(lia)). lra.
  - pose proof (pow2_mono (e + 1) (qlog2 r) ltac:(lia)). lra.
Qed.

Lemma qlog2_Qeq r1 r2 : (0 < r1)%Q → (r1 == r2)%Q → qlog2 r1 = qlog2 r2.
Proof. intros Hr Heq. symmetry. apply qlog2_unique. rewrite <-Heq. by apply qlog2_spec. Qed.

#[export] Instance round_half_even_proper : Proper (Qeq ==> eq) round_half_even.
Proof.
  intros x y Heq. unfold round_half_even.
  assert (Qfloor x = Qfloor y) as <-.
  { apply Z.le_antisymm; apply Qfloor_resp_le; rewrite Heq; apply Qle_refl. }
  set (f := Qfloor x). by rewrite Heq.
Qed.

Lemma round_pos_Qeq r1 r2 : (0 < r1)%Q → (r1 == r2)%Q → round_pos r1 = round_pos r2.
Proof.
  intros Hr Heq. unfold round_pos. rewrite (qlog2_Qeq r1 r2 Hr Heq).
  set (e := Z.max (qlog2 r2) (-1022)).
  assert (round_half_even (r1 * pow2 (52 - e)) = round_half_even (r2 * pow2 (52 - e))) as -> by
    (apply round_half_even_proper; by rewrite Heq).
  done.
Qed.

Lemma f64_neg_involutive x : f64_neg (f64_neg x) = x.
Proof. destruct x as [[a b]| | |]; [|done..]. by destruct a. Qed.

#[export] Instance f64_neg_inj : Inj eq eq f64_neg.
Proof. intros x y H. by rewrite <-(f64_neg_involutive x), H, f64_neg_involutive. Qed.

#[export] Instance round_f64_proper : Proper (Qeq ==> eq) round_f64.
Proof.
  intros r1 r2 Heq. unfold round_f64.
  assert (Qeq_bool r1 0 = Qeq_bool r2 0) as <-.
  { apply Bool.eq_true_iff_eq. rewrite !Qeq_bool_iff, Heq. done. }
  assert (Qle_bool 0 r1 = Qle_bool 0 r2) as <-.
  { apply Bool.eq_true_iff_eq. rewrite !Qle_bool_iff, Heq. done. }
  destruct (Qeq_bool r1 0) eqn:E1; [done|].
  apply not_true_iff_false in E1. rewrite Qeq_bool_iff in E1.
  destruct (Qle_bool 0 r1) eqn:F1.
  - apply Qle_bool_iff in F1. apply round_pos_Qeq; [|done].
    apply Qle_lteq in F1 as [|H]; [done|]. by symmetry in H.
  - apply not_true_iff_false in F1. rewrite Qle_bool_iff in F1.
    f_equal. apply round_pos_Qeq; [lra|]. by rewrite Heq.
Qed.

(** ** Parsing a plain decimal *)

Lemma try_parse_digits_app ds rest :
  Forall (λ c, is_digit c = true) ds →
  (match rest with c :: _ => is_digit c = false | [] => True end) →
  try_parse_digits (ds ++ rest) = (ds, rest).
Proof.
  intros Hds Hrest. induction Hds as [|c ds Hc _ IH]; simpl.
  - destruct rest as [|c rest]; [done|]. simpl. by rewrite Hrest.
  - rewrite Hc, IH. done.
Qed.

Lemma decimal_scale n k :
  (inject_Z n * Qpower (10 # 1) (0 - Z.of_nat k) == inject_Z n / inject_Z (10 ^ Z.of_nat k))%Q.
Proof.
  unfold Qdiv. rewrite Z.sub_0_l, Qpower_opp, Zpower_Qpower by lia. reflexivity.
Qed.

(** A numeral [int.frac] (at least one digit before the point) is parsed as
    its decimal value rounded to the nearest [f64]. *)
Lemma parse_f64_decimal int frac :
  int ≠ [] → Forall (λ c, is_digit c = true) int → Forall (λ c, is_digit c = true) frac →
  parse_f64 (int ++ 46 :: frac) = Some (round_f64 (decimal_value int frac)).
Proof.
  intros Hne Hint Hfrac. destruct int as [|c int']; [done|].
  assert (is_digit c = true) as Hc by (by inversion Hint).
  assert ((c =? 45) = false ∧ (c =? 43) = false) as [H45 H43]
    by (unfold is_digit in Hc; split; apply Z.eqb_neq; intros ->; discriminate Hc).
  rewrite <-app_comm_cons. cbn [parse_f64]. rewrite H45, H43. cbn [orb].
  unfold parse_number, parse_partial_number. rewrite app_comm_cons, try_parse_digits_app by done.
  rewrite <-(app_nil_r frac), try_parse_digits_app, app_nil_r by done.
  simpl. f_equal. apply round_f64_proper. apply decimal_scale.
Qed.

#[export] Instance f64_in_unit_dec x : Decision (f64_in_unit x).
Proof.
  destruct x as [q| | |]; simpl; [|right; intros []..].
  destruct (Qlt_le_dec q 0); [right; lra|]. destruct (Qlt_le_dec 1 q); [right; lra|left; lra].
Qed.

Lemma digits_value_nonneg ds : Forall (λ c, is_digit c = true) ds → 0 <= digits_value ds.
Proof.
  unfold digits_value. intros Hds.
  enough (∀ acc, 0 <= acc → 0 <= fold_left (λ acc c, acc * 10 + (c - 48)) ds acc) as H by (by apply H).
  induction Hds as [|c ds Hc _ IH]; intros acc Hacc; [done|]. simpl. apply IH.
  unfold is_digit in Hc. apply andb_prop in Hc as [H1 H2]. apply Z.leb_le in H1. lia.
Qed.

Lemma decimal_value_nonneg int frac :
  Forall (λ c, is_digit c = true) (int ++ frac) → (0 <= decimal_value int frac)%Q.
Proof.
  intros Hd. unfold decimal_value. apply Qle_shift_div_l.
  - change 0%Q with (inject_Z 0). rewrite <-Zlt_Qlt. apply Z.pow_pos_nonneg; lia.
  - rewrite Qmult_0_l. change 0%Q with (inject_Z 0). rewrite <-Zle_Qle. by apply digits_value_nonneg.
Qed.
