(* ===== verification/Rng.v ===== *)
(** * Rng: [rng.random_bool(p)] of the rand crate (0.9), called at main.rs 55

    The rand crate is not part of this repository; this file models the
    behaviour of the version the code uses: [Rng::random_bool] builds a
    [Bernoulli] distribution and samples it, and panics when
    [Bernoulli::new] rejects the probability:
    - [Bernoulli::new(p)]: for [p] in [[0, 1)], [p_int = (p * 2^64) as u64];
      for [p = 1], [p_int = ALWAYS_TRUE = u64::MAX]; otherwise an error;
    - [sample]: [true] without drawing when [p_int = ALWAYS_TRUE],
      otherwise draw one [u64] word [v] and return [v < p_int].
    The generator itself is a stream of [u64] words, [rng_pos] of them
    drawn so far. The probability is an [F64] ([Float]): a finite one is a
    rational, [p * 2^64] is exact in [f64], and [as u64] truncates, which
    is [Qfloor] on the non-negative values met here; NaN and the
    infinities fail both tests of [Bernoulli::new] and are rejected. *)

From S2P Require Import Prelude Float.
From Stdlib Require Import QArith Qround Lqa.

Record Rng := mk_rng { rng_words : nat → Z; rng_pos : nat }.

(** [rng.random::<u64>()] *)
Definition next_u64 (rng : Rng) : Z * Rng :=
  (rng_words rng (rng_pos rng) mod 2 ^ 64,
   {| rng_words := rng_words rng; rng_pos := S (rng_pos rng) |})%Z.

(** [rng] after [k] more words have been drawn. *)
Definition rng_advance (rng : Rng) (k : nat) : Rng :=
  {| rng_words := rng_words rng; rng_pos := rng_pos rng + k |}.

(** The [i]-th word drawn from now on. *)
Definition rng_word (rng : Rng) (i : nat) : Z := (rng_words rng (rng_pos rng + i) mod 2 ^ 64)%Z.

Definition ALWAYS_TRUE : Z := (2 ^ 64 - 1)%Z.
Definition SCALE : Q := inject_Z (2 ^ 64).

Record Bernoulli := mk_bernoulli { p_int : Z }.

(** [Bernoulli::new(p)] *)
Definition bernoulli_new (p : F64) : option Bernoulli :=
  match p with
  | Finite p =>
      if Qle_bool 0 p && negb (Qle_bool 1 p) then Some (mk_bernoulli (Qfloor (p * SCALE)))
      else if Qeq_bool p 1 then Some (mk_bernoulli ALWAYS_TRUE)
      else None
  | _ => None
  end.

(** [Distribution<bool> for Bernoulli :: sample] *)
Definition bernoulli_sample (d : Bernoulli) (rng : Rng) : bool * Rng :=
  if (p_int d =? ALWAYS_TRUE)%Z then (true, rng)
  else let '(v, rng') := next_u64 rng in ((v <? p_int d)%Z, rng').

(** [rng.random_bool(p)]; [None] is the panic [p={:?} is outside range [0.0, 1.0]]. *)
Definition random_bool (rng : Rng) (p : F64) : option (bool * Rng) :=
  d ← bernoulli_new p; Some (bernoulli_sample d rng).

(** ** Lemmas *)

Lemma Qle_bool_false x y : Qle_bool x y = false ↔ (y < x)%Q.
Proof.
  rewrite <-not_true_iff_false, Qle_bool_iff.
  split; [apply Qnot_le_lt | apply Qlt_not_le].
Qed.

Lemma Qeq_bool_false x y : Qeq_bool x y = false ↔ ¬ (x == y)%Q.
Proof. rewrite <-not_true_iff_false, Qeq_bool_iff. done. Qed.

(** Case analysis on the tests of [Bernoulli::new], turned into
    inequalities on [Q] for [lra]. *)
Ltac bernoulli_cases :=
  unfold bernoulli_new; cbv iota beta;
  destruct (Qle_bool 0 _) eqn:?E0, (Qle_bool 1 _) eqn:?E1, (Qeq_bool _ 1) eqn:?E2;
  rewrite ?Qle_bool_iff, ?Qle_bool_false, ?Qeq_bool_iff, ?Qeq_bool_false in *; simpl.

Lemma bernoulli_new_valid p :
  (0 <= p < 1)%Q → bernoulli_new p = Some (mk_bernoulli (Qfloor (p * SCALE))).
Proof. intros Hp. bernoulli_cases; done || lra. Qed.

Lemma bernoulli_new_one p : (p == 1)%Q → bernoulli_new p = Some (mk_bernoulli ALWAYS_TRUE).
Proof. intros Hp. bernoulli_cases; done || lra. Qed.

Lemma bernoulli_new_None p : (p < 0 ∨ 1 < p)%Q → bernoulli_new p = None.
Proof. intros Hp. bernoulli_cases; done || lra. Qed.

Lemma bernoulli_new_Some p : (0 <= p <= 1)%Q → is_Some (bernoulli_new p).
Proof. intros Hp. bernoulli_cases; first [by eexists | lra]. Qed.

(** A draw consumes one word unless the threshold is [ALWAYS_TRUE]. *)
Lemma random_bool_draw rng p d :
  bernoulli_new p = Some d → p_int d ≠ ALWAYS_TRUE →
  random_bool rng p = Some ((rng_word rng 0 <? p_int d)%Z, rng_advance rng 1).
Proof.
  intros Hd Hne. unfold random_bool. rewrite Hd. simpl. unfold bernoulli_sample.
  destruct (Z.eqb_spec (p_int d) ALWAYS_TRUE); [done|].
  unfold rng_word, rng_advance. simpl. by rewrite Nat.add_0_r, Nat.add_1_r.
Qed.

Lemma random_bool_one rng p : (p == 1)%Q → random_bool rng p = Some (true, rng).
Proof. intros Hp. unfold random_bool. by rewrite bernoulli_new_one. Qed.

(** NaN, the infinities and the finite values outside [[0, 1]]. *)
Lemma bernoulli_new_not_unit p : ¬ f64_in_unit p → bernoulli_new p = None.
Proof. destruct p as [q| | |]; [|done..]. intros Hq. simpl in Hq. bernoulli_cases; done || lra. Qed.

Lemma random_bool_out_of_range rng p : ¬ f64_in_unit p → random_bool rng p = None.
Proof. intros Hp. unfold random_bool. by rewrite bernoulli_new_not_unit. Qed.

Lemma rng_word_advance rng k i : rng_word (rng_advance rng k) i = rng_word rng (k + i).
Proof. unfold rng_word, rng_advance. simpl. by rewrite Nat.add_assoc. Qed.

Lemma rng_advance_advance rng k l : rng_advance (rng_advance rng k) l = rng_advance rng (k + l).
Proof. unfold rng_advance. simpl. by rewrite Nat.add_assoc. Qed.

Lemma rng_advance_0 rng : rng_advance rng 0 = rng.
Proof. destruct rng. unfold rng_advance. simpl. by rewrite Nat.add_0_r. Qed.
