(* ===== verification/Generator.v ===== *)
(** * Generator: [fn generator] (main.rs 44-89)

    [generator] threads two effects: the random generator [rng] and what it
    prints on standard output; and it can panic (in [random_bool] when the
    probability is outside [[0, 1]], and, in principle, in the erosion
    loop). [Io] is the matching state-and-panic monad over a [World] that
    holds the generator and the log of what was printed, as [Output]
    events: a [println!] of a message, or a call to [print_grid]. *)

From Stdlib Require Import QArith Strings.String Strings.Byte.
From S2P Require Import Prelude Grid Neighbours Erosion Render Float Rng.
From stdpp Require Import relations.
Local Open Scope nat_scope.

(** ** The I/O monad *)

Inductive Output :=
| Line (text : bytes)      (* [println!] of a message *)
| PrintGrid (g : Grid).    (* [print_grid(&grid)] *)

Record World := mk_world { world_rng : Rng; world_out : list Output }.

(** [None] is a panic. *)
Definition Io (A : Type) : Type := World → option (A * World).

Definition io_ret {A} (x : A) : Io A := λ w, Some (x, w).
Definition io_bind {A B} (m : Io A) (k : A → Io B) : Io B :=
  λ w, match m w with Some (x, w') => k x w' | None => None end.

Declare Scope io_scope.
Delimit Scope io_scope with io.
Notation "x <- m ;; k" := (io_bind m (λ x, k))
  (at level 100, m at next level, right associativity) : io_scope.
Notation "m ;;; k" := (io_bind m (λ _ : unit, k))
  (at level 100, right associativity) : io_scope.
Local Open Scope io_scope.

Definition emit (o : Output) : Io unit :=
  λ w, Some (tt, mk_world (world_rng w) (world_out w ++ [o])).

(** [rng.random_bool(p)] on the world's generator. *)
Definition random_bool_io (p : F64) : Io bool :=
  λ w, match random_bool (world_rng w) p with
       | Some (b, rng') => Some (b, mk_world rng' (world_out w))
       | None => None
       end.

(** A computation of the model that may panic, lifted into [Io]. *)
Definition lift_opt {A} (o : option A) : Io A :=
  λ w, match o with Some x => Some (x, w) | None => None end.

(** ** Messages *)

Fixpoint uint_bytes (u : Decimal.uint) : bytes :=
  match u with
  | Decimal.Nil => []
  | Decimal.D0 u => Byte.x30 :: uint_bytes u | Decimal.D1 u => Byte.x31 :: uint_bytes u
  | Decimal.D2 u => Byte.x32 :: uint_bytes u | Decimal.D3 u => Byte.x33 :: uint_bytes u
  | Decimal.D4 u => Byte.x34 :: uint_bytes u | Decimal.D5 u => Byte.x35 :: uint_bytes u
  | Decimal.D6 u => Byte.x36 :: uint_bytes u | Decimal.D7 u => Byte.x37 :: uint_bytes u
  | Decimal.D8 u => Byte.x38 :: uint_bytes u | Decimal.D9 u => Byte.x39 :: uint_bytes u
  end.

(** [format!("{}", n)] for an unsigned integer. *)
Definition display_nat (n : nat) : bytes := uint_bytes (Nat.to_uint n).

(** main.rs 49 *)
Definition init_message (ui : UiTileState.t) : bytes :=
  list_byte_of_string "## Initialized grid with: air='"%string ++ UiTileState.blank ui ++
  list_byte_of_string "'; wall='"%string ++ UiTileState.wall ui ++ list_byte_of_string "'."%string.

(** main.rs 61 *)
Definition first_message : bytes := list_byte_of_string "- First random generation: "%string.

(** main.rs 82 *)
Definition iteration_message (iteration : nat) : bytes :=
  list_byte_of_string "- Erosion, iteration "%string ++ display_nat iteration ++ list_byte_of_string ": "%string.

(** ** The code *)

(** [for tile in line.iter_mut() { if rng.random_bool(p) { *tile = true; } }] *)
Fixpoint init_line (probability_wall : F64) (line : list bool) : Io (list bool) :=
  match line with
  | [] => io_ret []
  | tile :: rest =>
      b <- random_bool_io probability_wall ;;
      rest' <- init_line probability_wall rest ;;
      io_ret ((if b then true else tile) :: rest')
  end.

(** [for line in grid.iter_mut() { ... }] (main.rs 53-59) *)
Fixpoint init_grid (probability_wall : F64) (grid : Grid) : Io Grid :=
  match grid with
  | [] => io_ret []
  | line :: rest =>
      line' <- init_line probability_wall line ;;
      rest' <- init_grid probability_wall rest ;;
      io_ret (line' :: rest')
  end.

(** [for iteration in 1..=erosion_iteration] (main.rs 66-84): [remaining]
    iterations are left, the next one is numbered [iteration]. *)
Fixpoint erosion_loop (size : nat) (iteration remaining : nat) (grid : Grid) : Io Grid :=
  match remaining with
  | 0 => io_ret grid
  | S k =>
      grid_updated <- lift_opt (erosion_step size grid) ;;
      emit (Line (iteration_message iteration)) ;;;
      emit (PrintGrid grid_updated) ;;;
      erosion_loop size (S iteration) k grid_updated
  end.

(** [fn generator(probability_wall, erosion_iteration, ui_tiles_states)];
    the grid size is the parameter [size] ([GRID_SIZE] in the program). *)
Definition generator (size : nat) (probability_wall : F64) (erosion_iteration : nat)
    (ui_tiles_states : UiTileState.t) : Io Grid :=
  emit (Line (init_message ui_tiles_states)) ;;;
  grid <- init_grid probability_wall (grid_fill size false) ;;
  emit (Line first_message) ;;;
  emit (PrintGrid grid) ;;;
  erosion_loop size 1 erosion_iteration grid.

(** What standard output holds after a run: messages end with a newline,
    grids are printed by [print_grid]. *)
Definition stdout_bytes (outs : list Output) : bytes :=
  concat ((λ o, match o with
                | Line text => text ++ [Byte.x0a]
                | PrintGrid g => print_grid g
                end) <$> outs).

(** ** The run as the specification describes it (spec 4.4) *)

(** The grid one erosion iteration computes from [g] (see
    [Erosion.erosion_step_tabulate]). *)
Definition erosion_fun (n : nat) (g : Grid) : Grid :=
  grid_tabulate n (λ y x, spec_rule (wall g y x) (count_wall_neighbors n g x y)).

Fixpoint erosion_iter (n k : nat) (g : Grid) : Grid :=
  match k with 0 => g | S k => erosion_iter n k (erosion_fun n g) end.

(** What the erosion loop prints from iteration [i] on, [k] iterations left. *)
Fixpoint loop_outputs (n i k : nat) (g : Grid) : list Output :=
  match k with
  | 0 => []
  | S k => Line (iteration_message i) :: PrintGrid (erosion_fun n g)
             :: loop_outputs n (S i) k (erosion_fun n g)
  end.

(** The grids handed to [print_grid], in order. *)
Definition printed (outs : list Output) : list Grid :=
  omap (λ o, match o with PrintGrid g => Some g | Line _ => None end) outs.

(** The run of spec 4.4: states [Uninitialized → Initialized → Eroded(1)
    → … → Eroded(iterations)], [Eroded 0 g] being the initialised grid,
    each transition one synchronous step [spec_step] of spec 4.3. *)
Inductive run_state :=
| Uninitialized
| Eroded (k : nat) (g : Grid).

Inductive run_step (n iterations : nat) (init : Grid) : run_state → run_state → Prop :=
| run_init : run_step n iterations init Uninitialized (Eroded 0 init)
| run_erode k g :
    k < iterations → run_step n iterations init (Eroded k g) (Eroded (S k) (spec_step n g)).

(** [k] steps of the specification. *)
Fixpoint spec_iter (n k : nat) (g : Grid) : Grid :=
  match k with 0 => g | S k => spec_iter n k (spec_step n g) end.

(** ** Lemmas *)

Lemma io_bind_Some {A B} (m : Io A) (k : A → Io B) w x w' :
  m w = Some (x, w') → io_bind m k w = k x w'.
Proof. intros Hm. unfold io_bind. by rewrite Hm. Qed.

Lemma io_bind_None {A B} (m : Io A) (k : A → Io B) w :
  m w = None → io_bind m k w = None.
Proof. intros Hm. unfold io_bind. by rewrite Hm. Qed.

Lemma emit_run o w : emit o w = Some (tt, mk_world (world_rng w) (world_out w ++ [o])).
Proof. done. Qed.

Section draw.
Context (p : F64) (d : Bernoulli) (Hd : bernoulli_new p = Some d) (Hne : p_int d ≠ ALWAYS_TRUE).

(** Initialising a row draws one word per tile, left to right. *)
Lemma init_line_draw line w :
  init_line p line w =
    Some (imap (λ i tile, (rng_word (world_rng w) i <? p_int d)%Z || tile) line,
          mk_world (rng_advance (world_rng w) (length line)) (world_out w)).
Proof.
  revert w. induction line as [|tile line IH]; intros [rng out]; simpl.
  - by rewrite rng_advance_0.
  - unfold io_bind at 1, random_bool_io. simpl. rewrite (random_bool_draw _ _ _ Hd Hne).
    rewrite (io_bind_Some _ _ _ _ _ (IH _)). simpl. unfold io_ret.
    rewrite rng_advance_advance. do 3 f_equal.
    apply imap_ext. intros i t _. unfold compose. by rewrite rng_word_advance.
Qed.

(** Initialising a grid of rows of length [m] draws the words in row-major
    order: tile [(y, x)] gets word [y * m + x]. *)
Lemma init_grid_draw m grid w :
  Forall (λ line, length line = m) grid →
  init_grid p grid w =
    Some (imap (λ y line, imap (λ x tile, (rng_word (world_rng w) (y * m + x) <? p_int d)%Z
                                            || tile) line) grid,
          mk_world (rng_advance (world_rng w) (length grid * m)) (world_out w)).
Proof.
  intros Hrows. revert w. induction Hrows as [|line grid Hline _ IH]; intros [rng out]; simpl.
  - by rewrite rng_advance_0.
  - rewrite (io_bind_Some _ _ _ _ _ (init_line_draw _ _)). simpl.
    rewrite (io_bind_Some _ _ _ _ _ (IH _)). simpl.
    rewrite rng_advance_advance, Hline. unfold io_ret. do 3 f_equal.
    apply imap_ext. intros y l _. apply imap_ext. intros x t _.
    rewrite rng_word_advance. do 3 f_equal. lia.
Qed.
End draw.

Lemma random_bool_always rng p d :
  bernoulli_new p = Some d → p_int d = ALWAYS_TRUE → random_bool rng p = Some (true, rng).
Proof.
  intros Hd Heq. unfold random_bool. rewrite Hd. simpl. unfold bernoulli_sample.
  by rewrite Heq, Z.eqb_refl.
Qed.

(** When the threshold is [ALWAYS_TRUE] ([p = 1]) every tile becomes a wall
    and nothing is drawn. *)
Lemma init_line_always p d line w :
  bernoulli_new p = Some d → p_int d = ALWAYS_TRUE →
  init_line p line w = Some (replicate (length line) true, w).
Proof.
  intros Hd Heq. revert w. induction line as [|tile line IH]; intros w; [done|]. simpl.
  unfold io_bind at 1, random_bool_io. rewrite (random_bool_always _ _ _ Hd Heq).
  destruct w as [rng out]. simpl. by rewrite (io_bind_Some _ _ _ _ _ (IH _)).
Qed.

Lemma init_grid_always p d grid w :
  bernoulli_new p = Some d → p_int d = ALWAYS_TRUE →
  init_grid p grid w = Some ((λ line, replicate (length line) true) <$> grid, w).
Proof.
  intros Hd Heq. revert w. induction grid as [|line grid IH]; intros w; [done|]. simpl.
  rewrite (io_bind_Some _ _ _ _ _ (init_line_always _ _ _ _ Hd Heq)).
  by rewrite (io_bind_Some _ _ _ _ _ (IH _)).
Qed.

(** A probability outside [[0, 1]] (NaN and the infinities included) makes
    the first draw panic. *)
Lemma init_grid_out_of_range p grid w :
  ¬ f64_in_unit p → (∃ line, grid !! 0 = Some line ∧ line ≠ []) → init_grid p grid w = None.
Proof.
  intros Hp (line & H0 & Hne). destruct grid as [|l grid]; [done|]. injection H0 as ->.
  destruct line as [|t line]; [done|]. simpl. apply io_bind_None. apply io_bind_None.
  unfold random_bool_io. by rewrite random_bool_out_of_range.
Qed.



Lemma erosion_loop_run n i k g w :
  grid_wf n g → (Z.of_nat n < 2 ^ 31)%Z →
  erosion_loop n i k g w =
    Some (erosion_iter n k g, mk_world (world_rng w) (world_out w ++ loop_outputs n i k g)).
Proof.
  intros Hwf Hn. revert i g w Hwf. induction k as [|k IH]; intros i g [rng out] Hwf; simpl.
  - by rewrite app_nil_r.
  - unfold io_bind, lift_opt, emit. rewrite erosion_step_tabulate by done. simpl.
    fold (erosion_fun n g).
    rewrite IH by apply grid_tabulate_wf. simpl. by rewrite <-!app_assoc.
Qed.

Lemma printed_app o1 o2 : printed (o1 ++ o2) = printed o1 ++ printed o2.
Proof. unfold printed. apply omap_app. Qed.

Lemma printed_loop_outputs n i k g :
  printed (loop_outputs n i k g) = (λ j, erosion_iter n (S j) g) <$> seq 0 k.
Proof.
  revert i g. induction k as [|k IH]; intros i g; [done|].
  simpl. unfold printed in *. simpl. rewrite IH. f_equal.
  rewrite <-fmap_S_seq, <-list_fmap_compose. done.
Qed.

(** The initialisation loop never panics for a probability in [[0, 1]],
    keeps the dimensions, and leaves the output untouched. *)
Lemma init_grid_total p m grid w :
  (0 <= p <= 1)%Q → Forall (λ line, length line = m) grid →
  ∃ g' rng', init_grid p grid w = Some (g', mk_world rng' (world_out w)) ∧
    length g' = length grid ∧ Forall (λ line, length line = m) g'.
Proof.
  intros Hp Hrows. destruct (bernoulli_new_Some p Hp) as [d Hd].
  destruct (decide (p_int d = ALWAYS_TRUE)) as [Heq|Hne].
  - exists ((λ line, replicate (length line) true) <$> grid), (world_rng w).
    rewrite (init_grid_always p d) by done. destruct w. split_and!; [done|by rewrite length_fmap|].
    apply Forall_fmap. eapply Forall_impl; [done|]. intros l Hl. simpl. by rewrite length_replicate.
  - eexists _, _. rewrite (init_grid_draw p d Hd Hne m) by done. split_and!; [done|by rewrite length_imap|].
    apply Forall_lookup. intros y l Hy. rewrite list_lookup_imap in Hy.
    destruct (grid !! y) as [l0|] eqn:E; [|done]. injection Hy as <-.
    rewrite length_imap. rewrite Forall_lookup in Hrows. by apply (Hrows y).
Qed.

Lemma grid_fill_rows n b : Forall (λ line, length line = n) (grid_fill n b).
Proof. apply Forall_replicate. apply length_replicate. Qed.

(** Drawing into the all-open grid gives the tabulation of the draws. *)
Lemma imap_fill_false n (f : nat → nat → bool) :
  imap (λ y line, imap (λ x tile, f y x || tile) line) (grid_fill n false) = grid_tabulate n f.
Proof.
  assert (grid_wf n (grid_fill n false)) as Hwf.
  { split; [apply length_replicate | apply grid_fill_rows]. }
  apply (grid_eq n); [|apply grid_tabulate_wf|].
  - split; [rewrite length_imap; apply length_replicate|].
    apply Forall_lookup. intros y l Hy. rewrite list_lookup_imap in Hy.
    destruct (grid_fill n false !! y) eqn:E; [|done]. injection Hy as <-.
    rewrite length_imap. destruct Hwf as [_ Hr]. rewrite Forall_lookup in Hr. by apply (Hr y).
  - intros r c Hr Hc. unfold wall at 1. rewrite cell_imap2, (cell_wall n) by done.
    rewrite grid_fill_tabulate, !wall_tabulate by done. simpl. by rewrite orb_false_r.
Qed.

Section run.
Context (n : nat) (Hn : (Z.of_nat n < 2 ^ 31)%Z).

(** The whole run, for a probability in [[0, 1]]: the messages, the
    initialised grid, then one message and one grid per iteration. *)
Lemma generator_run p k ui w :
  (0 <= p <= 1)%Q →
  ∃ g0 rng', grid_wf n g0 ∧
    init_grid p (grid_fill n false) (mk_world (world_rng w) (world_out w ++ [Line (init_message ui)]))
      = Some (g0, mk_world rng' (world_out w ++ [Line (init_message ui)])) ∧
    generator n p k ui w =
      Some (erosion_iter n k g0,
            mk_world rng' (world_out w ++ Line (init_message ui) :: Line first_message
                             :: PrintGrid g0 :: loop_outputs n 1 k g0)).
Proof.
  intros Hp.
  destruct (init_grid_total p n (grid_fill n false)
              (mk_world (world_rng w) (world_out w ++ [Line (init_message ui)])))
    as (g0 & rng' & Hinit & Hlen & Hrows); [done|apply grid_fill_rows|].
  assert (grid_wf n g0) as Hwf by (split; [rewrite Hlen; apply length_replicate|done]).
  exists g0, rng'. split_and!; [done|done|].
  unfold generator, io_bind at 1, emit at 1. simpl.
  rewrite (io_bind_Some _ _ _ _ _ Hinit). unfold io_bind, emit. simpl.
  rewrite erosion_loop_run by done. simpl. by rewrite <-!app_assoc.
Qed.

Lemma printed_run g0 k :
  printed (PrintGrid g0 :: loop_outputs n 1 k g0) = (λ j, erosion_iter n j g0) <$> seq 0 (S k).
Proof.
  unfold printed at 1. simpl. fold (printed (loop_outputs n 1 k g0)).
  rewrite printed_loop_outputs, <-fmap_S_seq, <-list_fmap_compose. done.
Qed.

(** From a symmetric grid the code's iterates are the specification's. *)
Lemma erosion_iter_symmetric k g : Grid.symmetric n g → erosion_iter n k g = spec_iter n k g.
Proof.
  revert g. induction k as [|k IH]; intros g Hs; [done|]. simpl. unfold erosion_fun.
  rewrite tabulate_symmetric_spec by done. apply IH.
  rewrite <-tabulate_symmetric_spec by done. by apply tabulate_symmetric_preserved.
Qed.

(** The whole run when the probability draws ([0 <= p < 1]): the first
    grid is tabulated from the words drawn in row-major order. *)
Lemma generator_draw p d k ui w :
  bernoulli_new p = Some d → p_int d ≠ ALWAYS_TRUE →
  let g0 := grid_tabulate n (λ y x, (rng_word (world_rng w) (y * n + x) <? p_int d)%Z) in
  generator n p k ui w =
    Some (erosion_iter n k g0,
          mk_world (rng_advance (world_rng w) (n * n))
            (world_out w ++ Line (init_message ui) :: Line first_message :: PrintGrid g0
               :: loop_outputs n 1 k g0)).
Proof.
  intros Hd Hne g0. unfold generator, io_bind at 1, emit at 1. simpl.
  rewrite (io_bind_Some _ _ _ _ _ (init_grid_draw p d Hd Hne n _ _ (grid_fill_rows n false))).
  unfold io_bind, emit. simpl. rewrite imap_fill_false.
  rewrite erosion_loop_run by (done || apply grid_tabulate_wf).
  unfold grid_fill. rewrite length_replicate. simpl. by rewrite <-!app_assoc.
Qed.
End run.

Lemma run_reaches n iterations init j :
  j ≤ iterations → rtc (run_step n iterations init) Uninitialized (Eroded j (spec_iter n j init)).
Proof.
  induction j as [|j IH]; intros Hj.
  - apply rtc_once. constructor.
  - eapply rtc_r; [apply IH; lia|]. replace (spec_iter n (S j) init) with (spec_step n (spec_iter n j init)).
    + constructor. lia.
    + clear. revert init. induction j as [|j IH]; intros init; [done|]. apply IH.
Qed.

(** ** Properties of [generator] *)

Definition sample_world : World := mk_world (mk_rng (λ i, Z.of_nat i * 7919)%Z 0) [].

(** C6. For a probability in [[0, 1]] the generator never panics. It
    prints the header, the first-generation message and the initialised
    grid, then for each iteration its message and the new grid, and returns
    the last one: the [k]-th iterate of the initialised grid. *)
Theorem generator_output n p k ui w :
  (Z.of_nat n < 2 ^ 31)%Z → (0 <= p <= 1)%Q →
  ∃ g0 w', generator n p k ui w = Some (erosion_iter n k g0, w') ∧ grid_wf n g0 ∧
    world_out w' = world_out w ++ Line (init_message ui) :: Line first_message
                     :: PrintGrid g0 :: loop_outputs n 1 k g0.
Proof.
  intros Hn Hp. destruct (generator_run n Hn p k ui w Hp) as (g0 & rng' & Hwf & _ & Hgen).
  exists g0. eexists. split_and!; [exact Hgen | done | reflexivity].
Qed.

Lemma generator_output_witness :
  ∃ g0 w', generator 3 (1 # 2) 2 UI_TILES_STATES sample_world = Some (erosion_iter 3 2 g0, w') ∧
    grid_wf 3 g0 ∧
    world_out w' = world_out sample_world ++ Line (init_message UI_TILES_STATES)
      :: Line first_message :: PrintGrid g0 :: loop_outputs 3 1 2 g0.
Proof.
  apply generator_output; [lia | split; unfold Qle; simpl; lia].
Defined.

(** C7. The renderer observes every stage: a run of [k] iterations hands
    [print_grid] exactly [k + 1] grids, in order the initialised grid and
    its successive iterates, the last of which is the grid returned. *)
Theorem generator_renders n p k ui w g w' :
  (Z.of_nat n < 2 ^ 31)%Z → (0 <= p <= 1)%Q → generator n p k ui w = Some (g, w') →
  ∃ g0, printed (world_out w') =
          printed (world_out w) ++ ((λ j, erosion_iter n j g0) <$> seq 0 (S k)) ∧
        g = erosion_iter n k g0.
Proof.
  intros Hn Hp Hgen. destruct (generator_run n Hn p k ui w Hp) as (g0 & rng' & _ & _ & Hrun).
  rewrite Hrun in Hgen. injection Hgen as <- <-. exists g0. split; [|done].
  simpl. rewrite printed_app. f_equal. unfold printed at 1. simpl.
  fold (printed (PrintGrid g0 :: loop_outputs n 1 k g0)). apply printed_run.
Qed.

Lemma generator_renders_witness :
  ∃ g0, printed (world_out (mk_world (rng_advance (world_rng sample_world) 9)
          (world_out sample_world ++ Line (init_message UI_TILES_STATES) :: Line first_message
             :: PrintGrid (grid_fill 3 false) :: loop_outputs 3 1 1 (grid_fill 3 false)))) =
        printed (world_out sample_world) ++ ((λ j, erosion_iter 3 j g0) <$> seq 0 2) ∧
        erosion_iter 3 1 (grid_fill 3 false) = erosion_iter 3 1 g0.
Proof.
  apply (generator_renders 3 0 1 UI_TILES_STATES sample_world);
    [lia | split; unfold Qle; simpl; lia | vm_compute; reflexivity].
Defined.

(** C10. Initialisation draws one [u64] word per tile in row-major order:
    tile [(y, x)] of the first grid is a wall exactly when word
    [y * n + x] is below the Bernoulli threshold, and [n * n] words are
    consumed. *)
Theorem generator_init_row_major n p d k ui w :
  (Z.of_nat n < 2 ^ 31)%Z → bernoulli_new p = Some d → p_int d ≠ ALWAYS_TRUE →
  ∃ w', generator n p k ui w =
          Some (erosion_iter n k
                  (grid_tabulate n (λ y x, (rng_word (world_rng w) (y * n + x) <? p_int d)%Z)), w') ∧
        world_rng w' = rng_advance (world_rng w) (n * n).
Proof.
  intros Hn Hd Hne. rewrite (generator_draw n Hn p d) by done. by eexists.
Qed.

Lemma generator_init_row_major_witness :
  ∃ w', generator 3 (1 # 2) 1 UI_TILES_STATES sample_world =
          Some (erosion_iter 3 1
                  (grid_tabulate 3 (λ y x, (rng_word (world_rng sample_world) (y * 3 + x)
                                             <? p_int (mk_bernoulli (2 ^ 63)))%Z)), w') ∧
        world_rng w' = rng_advance (world_rng sample_world) (3 * 3).
Proof.
  apply generator_init_row_major; [lia | vm_compute; reflexivity | vm_compute; discriminate].
Defined.

(** C18. With [p = 1] every tile starts as a wall and no random word is
    drawn. *)
Theorem generator_probability_one n p k ui w :
  (Z.of_nat n < 2 ^ 31)%Z → (p == 1)%Q →
  ∃ w', generator n p k ui w = Some (erosion_iter n k (grid_fill n true), w') ∧
        world_rng w' = world_rng w.
Proof.
  intros Hn Hp. pose proof (bernoulli_new_one p Hp) as Hd.
  unfold generator, io_bind at 1, emit at 1. simpl.
  rewrite (io_bind_Some _ _ _ _ _ (init_grid_always p _ _ _ Hd eq_refl)).
  unfold io_bind, emit. simpl.
  assert ((λ line, replicate (length line) true) <$> grid_fill n false = grid_fill n true) as ->.
  { unfold grid_fill. rewrite fmap_replicate, length_replicate. done. }
  rewrite erosion_loop_run
    by first [done | split; [unfold grid_fill; apply length_replicate | apply grid_fill_rows]].
  by eexists.
Qed.

Lemma generator_probability_one_witness :
  ∃ w', generator GRID_SIZE 1%Q DEFAULT_EROSION_ITERATIONS UI_TILES_STATES sample_world =
          Some (erosion_iter GRID_SIZE DEFAULT_EROSION_ITERATIONS (grid_fill GRID_SIZE true), w') ∧
        world_rng w' = world_rng sample_world.
Proof. apply generator_probability_one; [vm_compute; reflexivity | reflexivity]. Defined.

(** C8. A wall probability below 0 or above 1, NaN or an infinity, is not
    "accepted and degraded gracefully" as the specification says:
    [random_bool] panics on the very first tile. *)
Theorem generator_bad_probability_panics n p k ui w :
  0 < n → ¬ f64_in_unit p → generator n p k ui w = None.
Proof.
  intros Hn Hp. unfold generator, io_bind at 1, emit at 1. simpl.
  apply io_bind_None, init_grid_out_of_range; [done|].
  destruct n as [|n]; [lia|]. eexists. split; [done|]. simpl. discriminate.
Qed.

Lemma generator_bad_probability_panics_witness :
  generator GRID_SIZE (3 # 2) DEFAULT_EROSION_ITERATIONS UI_TILES_STATES sample_world = None.
Proof.
  apply generator_bad_probability_panics; [vm_compute; lia | unfold f64_in_unit, Qle; simpl; lia].
Defined.

(** C9. Refinement of the specification's run: the grid [generator]
    returns is the state its run (spec 4.4, with the synchronous step of
    spec 4.3) reaches after [k] steps from the first grid [generator]
    printed, whenever that grid is symmetric about its diagonal (on other
    grids the two steps differ, see C3). *)
Theorem generator_refines_run n p k ui w g w' :
  (Z.of_nat n < 2 ^ 31)%Z → (0 <= p <= 1)%Q → generator n p k ui w = Some (g, w') →
  ∃ g0, head (printed (drop (length (world_out w)) (world_out w'))) = Some g0 ∧
    (Grid.symmetric n g0 → rtc (run_step n k g0) Uninitialized (Eroded k g)).
Proof.
  intros Hn Hp Hgen. destruct (generator_run n Hn p k ui w Hp) as (g0 & rng' & Hwf & _ & Hrun).
  rewrite Hrun in Hgen. injection Hgen as <- <-. exists g0. split.
  - simpl. rewrite drop_app_length. done.
  - intros Hs. rewrite erosion_iter_symmetric by done. by apply run_reaches.
Qed.

Lemma generator_refines_run_witness :
  ∃ g w', generator 3 1%Q 1 UI_TILES_STATES sample_world = Some (g, w') ∧
    rtc (run_step 3 1 (grid_fill 3 true)) Uninitialized (Eroded 1 g).
Proof.
  destruct (generator 3 1%Q 1 UI_TILES_STATES sample_world) as [[g w']|] eqn:E;
    [|vm_compute in E; discriminate].
  exists g, w'. split; [done|].
  destruct (generator_refines_run 3 1 1 UI_TILES_STATES sample_world g w') as (g0 & Hhd & Hrun);
    [lia | split; unfold Qle; simpl; lia | exact E |].
  assert (g0 = grid_fill 3 true) as ->.
  { vm_compute in E. injection E as <- <-. vm_compute in Hhd. injection Hhd as <-. reflexivity. }
  apply Hrun. vm_compute. reflexivity.
Defined.

