(* ===== verification/Config.v ===== *)
(** * Config: [fn main] (main.rs 129-174)

    [main] prints a prompt, reads the wall probability and the iteration
    count from standard input, falls back silently to [DEFAULT_FILL] and
    [DEFAULT_EROSION_ITERATIONS] when a line does not parse, runs
    [generator] and waits for a last line. An input line is the list of its
    Unicode scalar values; [read_line] returns the next line (with its
    newline) or, at end of input, the empty string. [str::trim] removes the
    characters with the Unicode [White_Space] property from both ends;
    [parse_u32] is [u32::from_str] (the standard library's
    [from_str_radix] at radix 10); [parse_f64] is [f64::from_str]
    ([Float]). *)

From Stdlib Require Import QArith Qround Qabs Qminmax Strings.String Strings.Byte DecimalNat.
From S2P Require Import Prelude Grid Render Float Rng Generator.
Local Open Scope nat_scope.

(** ** [str::trim] *)

(** [char::is_whitespace]: the [White_Space] property. *)
Definition is_whitespace (c : Z) : bool :=
  (((9 <=? c) && (c <=? 13)) || (c =? 32) || (c =? 133) || (c =? 160) || (c =? 5760)
  || ((8192 <=? c) && (c <=? 8202)) || (c =? 8232) || (c =? 8233) || (c =? 8239)
  || (c =? 8287) || (c =? 12288))%Z.

Fixpoint trim_start (s : text) : text :=
  match s with
  | c :: rest => if is_whitespace c then trim_start rest else s
  | [] => []
  end.

Definition trim (s : text) : text := reverse (trim_start (reverse (trim_start s))).

(** ** [u32::from_str] *)

Inductive IntErrorKind := Empty | InvalidDigit | PosOverflow.

Definition u32_max : Z := (2 ^ 32 - 1)%Z.

(** The digit loop of [from_str_radix]: the digit is checked first, then
    [result.checked_mul(10)], then [checked_add(digit)]. *)
Fixpoint parse_digits (result : Z) (digits : text) : IntErrorKind + Z :=
  match digits with
  | [] => inr result
  | c :: rest =>
      if negb ((48 <=? c) && (c <=? 57))%Z then inl InvalidDigit
      else if (u32_max <? result * 10)%Z then inl PosOverflow
      else if (u32_max <? result * 10 + (c - 48))%Z then inl PosOverflow
      else parse_digits (result * 10 + (c - 48))%Z rest
  end.

Definition parse_u32 (src : text) : IntErrorKind + Z :=
  match src with
  | [] => inl Empty
  | [c] => if (c =? 43)%Z || (c =? 45)%Z then inl InvalidDigit else parse_digits 0 src
  | c :: rest => if (c =? 43)%Z then parse_digits 0 rest else parse_digits 0 src
  end.

(** ** The specification of [u32::from_str] on decimals *)

(** An ASCII byte string as the text it holds. *)
Definition text_of_bytes (bs : bytes) : text := map (λ b, Z.of_N (Byte.to_N b)) bs.

(** A text whose first and last characters are not whitespace. *)
Definition trimmed (s : text) : Prop :=
  (∀ c, head s = Some c → is_whitespace c = false) ∧
  (∀ c, last s = Some c → is_whitespace c = false).

(** What parsing the decimal numeral of [m] gives: [m], or an overflow. *)
Definition u32_of_nat (m : nat) : IntErrorKind + Z :=
  if (Z.of_nat m <=? u32_max)%Z then inr (Z.of_nat m) else inl PosOverflow.

(** ** [main] *)

(** [0.7_f64], exactly: 3152519739159347 / 2^52. *)
Definition DEFAULT_FILL : Q := (3152519739159347 # 4503599627370496)%Q.

(** [io::stdin().read_line(&mut s)] into an empty [s]. *)
Definition read_line (stdin : list text) : text * list text :=
  match stdin with [] => ([], []) | l :: rest => (l, rest) end.

Definition msg (s : string) : Output := Line (list_byte_of_string s).

(** What [main] prints before calling [generator]. *)
Definition main_prompts : list Output :=
  [msg "# Linear cave finder and indexer."; msg "## Please enter config (choices) [default]... ";
   msg "- Wall fill (]0; 1[) [0.7]: "; msg "- Erosion iterations (int > 0) [6]";
   msg "# Input received; generating grid"].

(** Standard output after a run of [main] whose first grid is [g0] and
    which does [k] iterations, written out directly: the prompts, the two
    messages of [generator], the first grid as [print_grid] prints it,
    each iteration's message and grid, the closing prompt. *)
Definition expected_stdout (g0 : Grid) (k : nat) : bytes :=
  stdout_bytes main_prompts ++
  (init_message UI_TILES_STATES ++ [Byte.x0a]) ++ (first_message ++ [Byte.x0a]) ++ print_grid g0 ++
  concat ((λ j, (iteration_message (S j) ++ [Byte.x0a]) ++ print_grid (erosion_iter GRID_SIZE (S j) g0))
            <$> seq 0 k) ++
  (list_byte_of_string "Enter to close..." ++ [Byte.x0a]).

(** main.rs 145-148 *)
Definition config_probability (line : text) : F64 :=
  match parse_f64 (trim line) with Some num => num | None => DEFAULT_FILL end.

(** main.rs 156-159 *)
Definition config_iterations (line : text) : nat :=
  match parse_u32 (trim line) with
  | inr num => Z.to_nat num
  | inl _ => DEFAULT_EROSION_ITERATIONS
  end.

Local Open Scope io_scope.

(** [fn main()]: returns what is left of standard input. *)
Definition main (stdin : list text) : Io (list text) :=
  emit (msg "# Linear cave finder and indexer.") ;;;
  emit (msg "## Please enter config (choices) [default]... ") ;;;
  emit (msg "- Wall fill (]0; 1[) [0.7]: ") ;;;
  let '(user_probability_wall, stdin) := read_line stdin in
  let probability_wall := config_probability user_probability_wall in
  emit (msg "- Erosion iterations (int > 0) [6]") ;;;
  let '(user_erosion_iterations, stdin) := read_line stdin in
  let erosion_iterations := config_iterations user_erosion_iterations in
  emit (msg "# Input received; generating grid") ;;;
  _ <- generator GRID_SIZE probability_wall erosion_iterations UI_TILES_STATES ;;
  emit (msg "Enter to close...") ;;;
  let '(_, stdin) := read_line stdin in
  io_ret stdin.

(** ** Lemmas *)

Lemma parse_digits_cons acc c rest :
  (48 <= c <= 57)%Z → (0 <= acc)%Z →
  parse_digits acc (c :: rest) =
    if (u32_max <? acc * 10 + (c - 48))%Z then inl PosOverflow
    else parse_digits (acc * 10 + (c - 48))%Z rest.
Proof.
  intros Hc Hacc. simpl.
  destruct (Z.leb_spec 48 c), (Z.leb_spec c 57); [simpl|lia..].
  destruct (Z.ltb_spec u32_max (acc * 10)), (Z.ltb_spec u32_max (acc * 10 + (c - 48))); done || lia.
Qed.

Lemma of_uint_acc_ge u acc : acc ≤ Nat.of_uint_acc u acc.
Proof.
  revert acc. induction u; intros acc; simpl; rewrite ?Nat.tail_mul_spec;
    try (etrans; [|apply IHu]); lia.
Qed.

(** One digit of the numeral: the step of [parse_digits] and of
    [Nat.of_uint_acc] agree. *)
Lemma parse_digits_digit u d acc :
  (∀ acc, (Z.of_nat acc <= u32_max)%Z →
     parse_digits (Z.of_nat acc) (text_of_bytes (uint_bytes u)) = u32_of_nat (Nat.of_uint_acc u acc)) →
  d < 10 → (Z.of_nat acc <= u32_max)%Z →
  parse_digits (Z.of_nat acc) ((48 + Z.of_nat d)%Z :: text_of_bytes (uint_bytes u)) =
    u32_of_nat (Nat.of_uint_acc u (d + 10 * acc)).
Proof.
  intros IH Hd Hacc. rewrite parse_digits_cons by lia.
  replace (Z.of_nat acc * 10 + (48 + Z.of_nat d - 48))%Z with (Z.of_nat (d + 10 * acc)) by lia.
  destruct (Z.ltb_spec u32_max (Z.of_nat (d + 10 * acc))) as [Hlt|Hle]; [|by apply IH].
  unfold u32_of_nat. pose proof (of_uint_acc_ge u (d + 10 * acc)).
  destruct (Z.leb_spec (Z.of_nat (Nat.of_uint_acc u (d + 10 * acc))) u32_max); [lia|done].
Qed.

Lemma parse_digits_uint u acc :
  (Z.of_nat acc <= u32_max)%Z →
  parse_digits (Z.of_nat acc) (text_of_bytes (uint_bytes u)) = u32_of_nat (Nat.of_uint_acc u acc).
Proof.
  revert acc. induction u; intros acc Hacc; cbn [Nat.of_uint_acc]; rewrite ?Nat.tail_mul_spec;
    [unfold u32_of_nat; simpl; by destruct (Z.leb_spec (Z.of_nat acc) u32_max); [|lia]|..].
  - exact (parse_digits_digit u 0 acc IHu ltac:(lia) Hacc).
  - exact (parse_digits_digit u 1 acc IHu ltac:(lia) Hacc).
  - exact (parse_digits_digit u 2 acc IHu ltac:(lia) Hacc).
  - exact (parse_digits_digit u 3 acc IHu ltac:(lia) Hacc).
  - exact (parse_digits_digit u 4 acc IHu ltac:(lia) Hacc).
  - exact (parse_digits_digit u 5 acc IHu ltac:(lia) Hacc).
  - exact (parse_digits_digit u 6 acc IHu ltac:(lia) Hacc).
  - exact (parse_digits_digit u 7 acc IHu ltac:(lia) Hacc).
  - exact (parse_digits_digit u 8 acc IHu ltac:(lia) Hacc).
  - exact (parse_digits_digit u 9 acc IHu ltac:(lia) Hacc).
Qed.

Lemma to_uint_not_Nil n : Nat.to_uint n ≠ Decimal.Nil.
Proof.
  intros H. pose proof (DecimalNat.Unsigned.of_to n) as E. rewrite H in E. simpl in E.
  subst n. discriminate H.
Qed.

(** A numeral starts with a digit, neither ['+'] nor ['-']: [from_str]
    goes straight to the digit loop. *)
Lemma parse_u32_uint u :
  u ≠ Decimal.Nil → parse_u32 (text_of_bytes (uint_bytes u)) = parse_digits 0 (text_of_bytes (uint_bytes u)).
Proof. intros Hu. destruct u; [done|..]; simpl; by destruct (uint_bytes u). Qed.

Lemma uint_bytes_digits u : Forall (λ c, 48 <= c <= 57)%Z (text_of_bytes (uint_bytes u)).
Proof. induction u; simpl; constructor; done || lia. Qed.

Lemma is_whitespace_digit c : (48 <= c <= 57)%Z → is_whitespace c = false.
Proof.
  intros Hc. assert (c = 48 + Z.of_nat (Z.to_nat (c - 48)))%Z as -> by lia.
  assert (Z.to_nat (c - 48) < 10) as Hk by lia. revert Hk.
  generalize (Z.to_nat (c - 48)). intros k Hk.
  do 10 (destruct k as [|k]; [reflexivity|]). lia.
Qed.

(** ** [str::trim] *)

Lemma trim_start_ws ws s : Forall (λ c, is_whitespace c = true) ws → trim_start (ws ++ s) = trim_start s.
Proof. induction 1 as [|c ws Hc _ IH]; [done|]. simpl. by rewrite Hc. Qed.

Lemma trim_start_keep c s : is_whitespace c = false → trim_start (c :: s) = c :: s.
Proof. simpl. by intros ->. Qed.

(** [trim_start] stops at the last character when that is not whitespace. *)
Lemma trim_start_snoc l c : is_whitespace c = false → ∃ l', trim_start (l ++ [c]) = l' ++ [c].
Proof.
  intros Hc. induction l as [|c' l IH]; simpl.
  - rewrite Hc. by exists [].
  - destruct (is_whitespace c'); [done|]. by exists (c' :: l).
Qed.

Lemma trim_pad ws1 s ws2 :
  Forall (λ c, is_whitespace c = true) ws1 → Forall (λ c, is_whitespace c = true) ws2 →
  trimmed s → trim (ws1 ++ s ++ ws2) = s.
Proof.
  intros H1 H2 [Hhd Hlast]. unfold trim. rewrite trim_start_ws by done.
  destruct s as [|c s].
  - simpl. rewrite <-(app_nil_r ws2), trim_start_ws by done. done.
  - rewrite <-app_comm_cons, trim_start_keep by (by apply Hhd).
    rewrite app_comm_cons, reverse_app, trim_start_ws by (by apply Forall_reverse).
    destruct (@exists_last _ (c :: s) ltac:(done)) as (l & c' & Hl). rewrite Hl.
    rewrite reverse_snoc, trim_start_keep, reverse_cons, reverse_involutive; [done|].
    apply Hlast. by rewrite Hl, last_snoc.
Qed.

Lemma trim_head c s : is_whitespace c = false → ∃ s', trim (c :: s) = c :: s'.
Proof.
  intros Hc. unfold trim. rewrite trim_start_keep by done. rewrite reverse_cons.
  destruct (trim_start_snoc (reverse s) c Hc) as [l' ->]. rewrite reverse_snoc. by eexists.
Qed.

Lemma trim_ws ws s : Forall (λ c, is_whitespace c = true) ws → trim (ws ++ s) = trim s.
Proof. intros Hws. unfold trim. by rewrite trim_start_ws. Qed.

Lemma trimmed_of_Forall s : Forall (λ c, is_whitespace c = false) s → trimmed s.
Proof.
  intros Hs. rewrite Forall_forall in Hs.
  split; intros c Hc; apply Hs; [by apply head_Some_elem_of | by apply last_Some_elem_of].
Qed.

Lemma text_of_bytes_trimmed bs :
  Forall (λ c, 48 <= c <= 57)%Z (text_of_bytes bs) → trimmed (text_of_bytes bs).
Proof.
  intros Hd. apply trimmed_of_Forall. eapply Forall_impl; [done|]. apply is_whitespace_digit.
Qed.

(** ** [main] *)

Lemma GRID_SIZE_small : (Z.of_nat GRID_SIZE < 2 ^ 31)%Z.
Proof. unfold GRID_SIZE. lia. Qed.

(** [main] reads its two lines, prints its prompts, runs [generator] with
    the parsed configuration, prints the closing prompt and consumes a
    third line; a panic of [generator] is a panic of [main]. *)
Lemma main_generator stdin w :
  main stdin w =
    match generator GRID_SIZE (config_probability (default [] (stdin !! 0)))
            (config_iterations (default [] (stdin !! 1))) UI_TILES_STATES
            (mk_world (world_rng w) (world_out w ++ main_prompts)) with
    | Some (_, w1) => Some (drop 3 stdin, mk_world (world_rng w1) (world_out w1 ++ [msg "Enter to close..."]))
    | None => None
    end.
Proof.
  unfold main, io_bind, emit, io_ret.
  destruct stdin as [|l1 [|l2 [|l3 rest]]]; cbn -[generator config_probability config_iterations];
    rewrite <-!app_assoc; (destruct generator as [[]|]; [done|done]).
Qed.

(** [main] when the probability it reads is in [[0, 1]]. *)
Lemma main_run_unit stdin w :
  f64_in_unit (config_probability (default [] (stdin !! 0%nat))) →
  ∃ g0 w', main stdin w = Some (drop 3 stdin, w') ∧ grid_wf GRID_SIZE g0 ∧
    world_out w' = world_out w ++ main_prompts ++ Line (init_message UI_TILES_STATES)
      :: Line first_message :: PrintGrid g0
      :: loop_outputs GRID_SIZE 1 (config_iterations (default [] (stdin !! 1))) g0
      ++ [msg "Enter to close..."].
Proof.
  intros Hp. rewrite main_generator.
  destruct (config_probability _) as [q| | |]; [|done..].
  destruct (generator_run GRID_SIZE GRID_SIZE_small q (config_iterations (default [] (stdin !! 1)))
              UI_TILES_STATES (mk_world (world_rng w) (world_out w ++ main_prompts)) Hp)
    as (g0 & rng' & Hwf & _ & ->).
  exists g0. eexists. split_and!; [reflexivity|done|]. simpl. by rewrite <-!app_assoc.
Qed.

Lemma stdout_bytes_app o1 o2 : stdout_bytes (o1 ++ o2) = stdout_bytes o1 ++ stdout_bytes o2.
Proof. unfold stdout_bytes. by rewrite fmap_app, concat_app. Qed.

Lemma stdout_bytes_Line t outs : stdout_bytes (Line t :: outs) = (t ++ [Byte.x0a]) ++ stdout_bytes outs.
Proof. done. Qed.

Lemma stdout_bytes_PrintGrid g outs : stdout_bytes (PrintGrid g :: outs) = print_grid g ++ stdout_bytes outs.
Proof. done. Qed.

Lemma stdout_loop_outputs n i k g :
  stdout_bytes (loop_outputs n i k g) =
    concat ((λ j, (iteration_message (i + j) ++ [Byte.x0a]) ++ print_grid (erosion_iter n (S j) g))
              <$> seq 0 k).
Proof.
  revert i g. induction k as [|k IH]; intros i g; [done|].
  cbn [loop_outputs seq]. rewrite <-fmap_S_seq, fmap_cons, <-list_fmap_compose. cbn [concat]. unfold stdout_bytes at 1. rewrite fmap_cons, fmap_cons. cbn [concat].
  fold (stdout_bytes (loop_outputs n (S i) k (erosion_fun n g))). rewrite IH, Nat.add_0_r, <-!app_assoc.
  do 3 f_equal. f_equal. apply list_fmap_ext. intros ? j _. unfold compose. by rewrite Nat.add_succ_r.
Qed.

(** [main] when the probability it reads is NaN, an infinity or outside
    [[0, 1]]: the first draw panics. *)
Lemma main_not_unit stdin w :
  ¬ f64_in_unit (config_probability (default [] (stdin !! 0%nat))) → main stdin w = None.
Proof.
  intros Hp. rewrite main_generator. unfold generator, io_bind at 1, emit at 1. cbn [world_rng world_out].
  rewrite io_bind_None; [done|]. apply init_grid_out_of_range; [done|].
  eexists. split; [reflexivity | discriminate].
Qed.

Lemma decimal_trimmed int frac :
  Forall (λ c, is_digit c = true) int → Forall (λ c, is_digit c = true) frac → trimmed (int ++ 46%Z :: frac).
Proof.
  intros Hi Hf. apply trimmed_of_Forall. apply Forall_app; split; [|constructor; [done|]];
    eapply Forall_impl; try eassumption; intros c Hc; apply is_whitespace_digit;
    unfold is_digit in Hc; apply andb_prop in Hc as [H1 H2]; apply Z.leb_le in H1, H2; lia.
Qed.

Lemma config_probability_decimal_round ws1 int frac ws2 :
  Forall (λ c, is_whitespace c = true) ws1 → Forall (λ c, is_whitespace c = true) ws2 →
  int ≠ [] → Forall (λ c, is_digit c = true) int → Forall (λ c, is_digit c = true) frac →
  config_probability (ws1 ++ (int ++ 46%Z :: frac) ++ ws2) = round_f64 (decimal_value int frac).
Proof.
  intros H1 H2 Hne Hi Hf. unfold config_probability.
  rewrite trim_pad by (done || by apply decimal_trimmed). by rewrite parse_f64_decimal.
Qed.

(** ** Properties of the configuration *)

(** C20. A blank line (the empty string [read_line] leaves at end of
    input, or a bare newline) is [Empty] for [u32::from_str], and the
    iteration count silently becomes the default 6. *)
Theorem config_iterations_blank l :
  Forall (λ c, is_whitespace c = true) l → config_iterations l = DEFAULT_EROSION_ITERATIONS.
Proof. intros Hl. unfold config_iterations. by rewrite <-(app_nil_r l), trim_ws. Qed.

Lemma config_iterations_blank_witness :
  config_iterations [32%Z; 13%Z; 10%Z] = DEFAULT_EROSION_ITERATIONS.
Proof. apply config_iterations_blank. repeat constructor. Defined.

(** C21. The iteration count: a line holding the decimal numeral of [m]
    between any whitespace (the newline [read_line] keeps included) gives
    [m] iterations when [m] fits in a [u32], and silently the default 6
    when it overflows. *)
Theorem config_iterations_decimal ws1 m ws2 :
  Forall (λ c, is_whitespace c = true) ws1 → Forall (λ c, is_whitespace c = true) ws2 →
  config_iterations (ws1 ++ text_of_bytes (display_nat m) ++ ws2) =
    if (Z.of_nat m <=? u32_max)%Z then m else DEFAULT_EROSION_ITERATIONS.
Proof.
  intros H1 H2. unfold config_iterations.
  rewrite trim_pad by (done || apply text_of_bytes_trimmed, uint_bytes_digits).
  unfold display_nat. rewrite parse_u32_uint by apply to_uint_not_Nil.
  change 0%Z with (Z.of_nat 0). rewrite parse_digits_uint by (unfold u32_max; lia).
  change (Nat.of_uint_acc (Nat.to_uint m) 0) with (Nat.of_uint (Nat.to_uint m)).
  rewrite DecimalNat.Unsigned.of_to. unfold u32_of_nat.
  destruct (Z.of_nat m <=? u32_max)%Z; [lia|done].
Qed.

Lemma config_iterations_decimal_witness :
  config_iterations ([32%Z] ++ text_of_bytes (display_nat 12) ++ [10%Z]) =
    if (Z.of_nat 12 <=? u32_max)%Z then 12 else DEFAULT_EROSION_ITERATIONS.
Proof. apply config_iterations_decimal; repeat constructor. Defined.

(** C22. A negative iteration count ([-] after any leading whitespace) is
    not an error the user sees: it silently becomes the default 6. *)
Theorem config_iterations_negative ws s :
  Forall (λ c, is_whitespace c = true) ws →
  config_iterations (ws ++ 45%Z :: s) = DEFAULT_EROSION_ITERATIONS.
Proof.
  intros Hws. unfold config_iterations. rewrite trim_ws by done.
  destruct (trim_head 45 s) as [s' ->]; [done|]. by destruct s'.
Qed.

Lemma config_iterations_negative_witness :
  config_iterations ([9%Z] ++ 45%Z :: [51%Z; 10%Z]) = DEFAULT_EROSION_ITERATIONS.
Proof. apply config_iterations_negative. repeat constructor. Defined.

(** C23. Equivalence with a direct rendering: when the probability [main]
    reads is in [[0, 1]], it does not panic, consumes three lines, and what
    it writes to standard output is exactly [expected_stdout]: the prompts,
    the header, the first grid, each iteration's message and grid (the
    iterates of the first grid, printed by [print_grid]) and the closing
    prompt. *)
Theorem main_stdout stdin w :
  f64_in_unit (config_probability (default [] (stdin !! 0%nat))) →
  ∃ g0 w', main stdin w = Some (drop 3 stdin, w') ∧ grid_wf GRID_SIZE g0 ∧
    stdout_bytes (world_out w') =
      stdout_bytes (world_out w) ++ expected_stdout g0 (config_iterations (default [] (stdin !! 1))).
Proof.
  intros Hp. destruct (main_run_unit stdin w Hp) as (g0 & w' & Hrun & Hwf & Hout).
  exists g0, w'. split_and!; [done|done|]. rewrite Hout, !stdout_bytes_app.
  unfold expected_stdout. f_equal. f_equal.
  rewrite !stdout_bytes_Line, stdout_bytes_PrintGrid, stdout_bytes_app, stdout_loop_outputs.
  by rewrite <-!app_assoc.
Qed.

Lemma main_stdout_witness :
  ∃ g0 w', main [[48; 46; 53; 10]; [51; 10]]%Z sample_world = Some (drop 3 [[48; 46; 53; 10]; [51; 10]]%Z, w') ∧
    grid_wf GRID_SIZE g0 ∧
    stdout_bytes (world_out w') = stdout_bytes (world_out sample_world) ++
      expected_stdout g0 (config_iterations (default [] ([[48; 46; 53; 10]; [51; 10]]%Z !! 1))).
Proof. apply main_stdout. vm_compute. split; discriminate. Defined.

(** C24. Defaults at end of input: when standard input is empty, [main]
    runs with [0.7] and 6 iterations: the first grid is drawn against the
    threshold of [Bernoulli::new(0.7)], six erosion iterations are printed,
    and nothing panics. *)
Theorem main_defaults w :
  let g0 := grid_tabulate GRID_SIZE
              (λ y x, (rng_word (world_rng w) (y * GRID_SIZE + x) <? Qfloor (DEFAULT_FILL * SCALE))%Z) in
  ∃ w', main [] w = Some ([], w') ∧
    world_out w' = world_out w ++ main_prompts ++ Line (init_message UI_TILES_STATES)
      :: Line first_message :: PrintGrid g0
      :: loop_outputs GRID_SIZE 1 DEFAULT_EROSION_ITERATIONS g0 ++ [msg "Enter to close..."].
Proof.
  intros g0. rewrite main_generator, !lookup_nil. cbn [default].
  change (config_probability []) with (Finite DEFAULT_FILL).
  change (config_iterations []) with DEFAULT_EROSION_ITERATIONS.
  pose proof (generator_draw GRID_SIZE GRID_SIZE_small DEFAULT_FILL
                (mk_bernoulli (Qfloor (DEFAULT_FILL * SCALE))) DEFAULT_EROSION_ITERATIONS
                UI_TILES_STATES (mk_world (world_rng w) (world_out w ++ main_prompts))) as Hg.
  cbv zeta in Hg. rewrite Hg by (vm_compute; (reflexivity || discriminate)).
  eexists. split; [reflexivity|]. simpl. by rewrite <-!app_assoc.
Qed.

(** C25. The wall probability: a line holding a decimal numeral [int.frac]
    between any whitespace becomes the [f64] nearest to its value, within
    a relative error of [2^-53] (an absolute [2^-1075] below the normal
    range). *)
Theorem config_probability_decimal ws1 int frac ws2 :
  Forall (λ c, is_whitespace c = true) ws1 → Forall (λ c, is_whitespace c = true) ws2 →
  int ≠ [] → Forall (λ c, is_digit c = true) int → Forall (λ c, is_digit c = true) frac →
  config_probability (ws1 ++ (int ++ 46%Z :: frac) ++ ws2) = round_f64 (decimal_value int frac) ∧
  ∀ q, round_f64 (decimal_value int frac) = Finite q →
    (Qabs (q - decimal_value int frac)
       <= Qmax (pow2 (-53) * decimal_value int frac) (pow2 (-1075)))%Q.
Proof.
  intros H1 H2 Hne Hi Hf. split; [by apply config_probability_decimal_round|].
  intros q Hq. apply round_f64_error; [|done]. apply decimal_value_nonneg. by apply Forall_app.
Qed.

Lemma config_probability_decimal_witness :
  config_probability ([32%Z] ++ ([48%Z] ++ 46%Z :: [51%Z]) ++ [10%Z]) = round_f64 (decimal_value [48%Z] [51%Z]) ∧
  ∀ q, round_f64 (decimal_value [48%Z] [51%Z]) = Finite q →
    (Qabs (q - decimal_value [48%Z] [51%Z])
       <= Qmax (pow2 (-53) * decimal_value [48%Z] [51%Z]) (pow2 (-1075)))%Q.
Proof. apply config_probability_decimal; repeat constructor; discriminate. Defined.

(** C26. A wall probability typed as a decimal numeral of value at most 1
    never makes [main] panic, whatever the other lines: rounding to [f64]
    keeps it in [[0, 1]]. *)
Theorem main_decimal_probability ws1 int frac ws2 rest w :
  Forall (λ c, is_whitespace c = true) ws1 → Forall (λ c, is_whitespace c = true) ws2 →
  int ≠ [] → Forall (λ c, is_digit c = true) int → Forall (λ c, is_digit c = true) frac →
  (decimal_value int frac <= 1)%Q →
  ∃ w', main ((ws1 ++ (int ++ 46%Z :: frac) ++ ws2) :: rest) w = Some (drop 2 rest, w').
Proof.
  intros H1 H2 Hne Hi Hf Hle.
  destruct (round_f64_unit (decimal_value int frac)) as (q & Hq & Hunit).
  { split; [apply decimal_value_nonneg; by apply Forall_app|done]. }
  destruct (main_run_unit ((ws1 ++ (int ++ 46%Z :: frac) ++ ws2) :: rest) w) as (g0 & w' & Hmain & _).
  { change (default [] (((ws1 ++ (int ++ 46%Z :: frac) ++ ws2) :: rest) !! 0%nat))
      with (ws1 ++ (int ++ 46%Z :: frac) ++ ws2).
    by rewrite config_probability_decimal_round, Hq. }
  by exists w'.
Qed.

Lemma main_decimal_probability_witness :
  ∃ w', main (([] ++ ([49%Z] ++ 46%Z :: [48%Z]) ++ [10%Z]) :: [[55%Z; 10%Z]]) sample_world =
          Some (drop 2 [[55%Z; 10%Z]], w').
Proof.
  apply main_decimal_probability; try (repeat constructor; discriminate).
Defined.

(** C27. The program's only failure: [main] panics exactly when the
    probability it reads (parsed, or the default) is NaN, infinite or
    outside [[0, 1]]; the iteration count and the other lines never make
    it fail. *)
Theorem main_panics_iff stdin w :
  main stdin w = None ↔ ¬ f64_in_unit (config_probability (default [] (stdin !! 0%nat))).
Proof.
  split; [|apply main_not_unit].
  intros Hnone Hp. destruct (main_run_unit stdin w Hp) as (g0 & w' & Hrun & _). congruence.
Qed.
